(** * athenadriver: session acquisition (connector.go) and workgroups (wg.go)

    A shallow embedding of [SQLConnector.Connect], [getWG] and
    [Workgroup.CreateWGRemotely].  The process-wide client map and every
    call that leaves the process (lock operations, configuration loading,
    client construction, metrics, remote workgroup calls) are threaded
    through a state monad whose state holds the map and the trace of the
    events performed so far. *)

From Stdlib Require Import Strings.Ascii.
From stdpp Require Import gmap strings list.

Local Open Scope string_scope.
Local Open Scope list_scope.

(** ** Go values *)

(** A Go pointer: [None] is [nil]. *)
Abbreviation ptr := option (only parsing).

(** A Go slice: [None] is the nil slice, [Some l] a non-nil slice. *)
Definition slice (A : Type) : Type := option (list A).

Definition len {A} (s : slice A) : nat :=
  match s with
  | None => 0
  | Some l => length l
  end.

(** ** The Go standard library functions used by [Connect] *)

Module strconv.

Inductive NumError : Type :=
| ErrSyntax (fn str : string).

Definition ParseBool (str : string) : bool * ptr NumError :=
  if bool_decide (str ∈ ["1"; "t"; "T"; "true"; "TRUE"; "True"])
  then (true, None)
  else if bool_decide (str ∈ ["0"; "f"; "F"; "false"; "FALSE"; "False"])
  then (false, None)
  else (false, Some (ErrSyntax "ParseBool" str)).

End strconv.

Module os.

(** The process environment. *)
Abbreviation Environ := (gmap string string).

(** [os.Getenv]: the empty string when the variable is not set. *)
Definition Getenv (env : Environ) (key : string) : string :=
  default "" (env !! key).

End os.

(** ** Types of the collaborators

    The AWS SDK, tally and zap types are opaque to the driver. *)

Class GoTypes : Type := {
  error : Type;
  aws_Config : Type;
  aws_Config_zero : aws_Config;
  athena_Client : Type;
  tally_Scope : Type;
  zap_Logger : Type;
  types_WorkGroupConfiguration : Type;
  types_WorkGroup : Type;
  types_Tag : Type;
  WGTags : Type;
}.

(** Modelled from the spec: the Configuration. Its accessors (region,
    profile name, access id, secret key, session token) are each a plain
    string, absence being the empty string; the record's projections are
    the accessors [Connect] calls. *)
Record Config : Type := {
  GetRegion : string;
  GetAWSProfile : string;
  GetAccessID : string;
  GetSecretAccessKey : string;
  GetSessionToken : string;
}.

(** [credentials.NewStaticCredentialsProvider(key, secret, session)] *)
Record StaticCredentialsProvider : Type := NewStaticCredentialsProvider {
  cred_key : string;
  cred_secret : string;
  cred_session : string;
}.

(** The functional options handed to [config.LoadDefaultConfig]. *)
Inductive LoadOption : Type :=
| WithSharedConfigProfile (profile : string)
| WithRegion (region : string)
| WithCredentialsProvider (p : StaticCredentialsProvider).

Section Model.

Context {types : GoTypes}.

(** *** context.Context *)

Inductive CtxKey : Type :=
| MetricsKey
| LoggerKey
| OtherKey (name : string).

Inductive CtxValue : Type :=
| VScope (s : tally_Scope)
| VLogger (l : ptr zap_Logger)
| VOther.

Definition context_Context : Type := CtxKey → option CtxValue.

Definition Value (ctx : context_Context) (k : CtxKey) : option CtxValue := ctx k.

Definition context_TODO : context_Context := λ _, None.

(** The comma-ok type assertions to [tally.Scope] and to [*zap.Logger]:
    [Some] carries the asserted value when [ok] is true. A nil [*zap.Logger]
    stored in the context still asserts successfully. *)
Definition assert_Scope (v : option CtxValue) : option tally_Scope :=
  match v with
  | Some (VScope s) => Some s
  | _ => None
  end.

Definition assert_Logger (v : option CtxValue) : option (ptr zap_Logger) :=
  match v with
  | Some (VLogger l) => Some l
  | _ => None
  end.

(** *** Observability *)

(** Modelled from the spec: the tracer, an observability object holding a
    metrics scope and a logger; [SetScope] and [SetLogger] install the
    overrides found in the context and [Scope] reads the scope back. *)
Record DriverTracer : Type := {
  scope : tally_Scope;
  logger : ptr zap_Logger;
}.

Definition SetScope (t : DriverTracer) (s : tally_Scope) : DriverTracer :=
  {| scope := s; logger := logger t |}.

Definition SetLogger (t : DriverTracer) (l : ptr zap_Logger) : DriverTracer :=
  {| scope := scope t; logger := l |}.

Definition Scope (t : DriverTracer) : tally_Scope := scope t.

(** *** wg.go: request and response shapes of the remote workgroup calls *)

Record CreateWorkGroupInput : Type := {
  cwg_Configuration : ptr types_WorkGroupConfiguration;
  cwg_Name : ptr string;
  cwg_Tags : slice types_Tag;
}.

Record GetWorkGroupInput : Type := {
  gwg_WorkGroup : ptr string;
}.

Record GetWorkGroupOutput : Type := {
  gwo_WorkGroup : ptr types_WorkGroup;
}.

(** [aws.String] *)
Definition aws_String (s : string) : ptr string := Some s.

(** *** Events

    Everything [Connect] and the workgroup functions do to the shared
    mutex, the shared map and the outside world, in program order. *)
Inductive Event : Type :=
| EvRLock
| EvRUnlock
| EvLock
| EvUnlock
| EvMapRead (key : string) (r : option (ptr athena_Client))
| EvMapWrite (key : string) (v : ptr athena_Client)
| EvLoadDefaultConfig (opts : list LoadOption) (r : error + aws_Config)
| EvNewFromConfig (cfg : aws_Config)
| EvCounterInc (s : tally_Scope) (name : string) (delta : Z)
| EvTimerRecord (s : tally_Scope) (name : string) (d : Z)
| EvCreateWorkGroup (ctx : context_Context) (svc : ptr athena_Client)
    (input : CreateWorkGroupInput) (err : ptr error)
| EvGetWorkGroup (ctx : context_Context) (svc : athena_Client)
    (input : GetWorkGroupInput) (r : error + GetWorkGroupOutput).

(** The collaborators and the constants of the package that live in other
    files. The logical time handed to a collaborator is the number of
    events performed so far, so its answers may change from call to call. *)
Class Collaborators : Type := {
  (** constants.go *)
  DriverName : string;
  ErrAthenaNilAPI : error;
  (** observability.go: the defaults installed from the Configuration *)
  NewDefaultObservability : Config → DriverTracer;
  (** wgtags.go, wgconfig.go *)
  NewWGTags : ptr WGTags;
  WGTags_Get : ptr WGTags → slice types_Tag;
  GetDefaultWGConfig : ptr types_WorkGroupConfiguration;
  (** the AWS SDK *)
  config_LoadDefaultConfig : nat → list LoadOption → error + aws_Config;
  athena_NewFromConfig : aws_Config → athena_Client;
  athena_CreateWorkGroup :
    nat → context_Context → ptr athena_Client → CreateWorkGroupInput →
    ptr error;
  athena_GetWorkGroup :
    nat → context_Context → athena_Client → GetWorkGroupInput →
    error + GetWorkGroupOutput;
  (** the wall clock *)
  time_Now : nat → Z;
}.

Context {world : Collaborators}.

(** *** connector.go: package state *)

(** [clients] (map key format: region#profile#accessid) together with
    the trace; [clientMutext] is represented by its lock and unlock
    events. *)
Record Globals : Type := {
  clients : gmap string (ptr athena_Client);
  trace : list Event;
}.

Record SQLConnector : Type := {
  config : Config;
  tracer : DriverTracer;
}.

Record Connection : Type := {
  athenaAPI : ptr athena_Client;
  connector : SQLConnector;
}.

(** *** The state monad *)

Definition M (A : Type) : Type := Globals → A * Globals.

#[global] Instance M_ret : MRet M := λ A (a : A) σ, (a, σ).

#[global] Instance M_bind : MBind M :=
  λ A B (k : A → M B) (m : M A) σ, let '(a, σ') := m σ in k a σ'.

Definition emit (e : Event) : M unit :=
  λ σ, (tt, {| clients := clients σ; trace := trace σ ++ [e] |}).

(** The logical time: the number of events performed so far. *)
Definition clock : M nat := λ σ, (length (trace σ), σ).

(** [clientMutext] *)
Definition RLock : M unit := emit EvRLock.
Definition RUnlock : M unit := emit EvRUnlock.
Definition Lock : M unit := emit EvLock.
Definition Unlock : M unit := emit EvUnlock.

(** [client, found := clients[key]]: the zero value [nil] when absent. *)
Definition clients_get (key : string) : M (ptr athena_Client * bool) :=
  λ σ, let r := clients σ !! key in
       ((default None r, bool_decide (is_Some r)),
        {| clients := clients σ; trace := trace σ ++ [EvMapRead key r] |}).

(** [clients[key] = v] *)
Definition clients_set (key : string) (v : ptr athena_Client) : M unit :=
  λ σ, (tt, {| clients := <[key := v]> (clients σ);
               trace := trace σ ++ [EvMapWrite key v] |}).

(** [config.LoadDefaultConfig(context.TODO(), opts...)]: the zero
    [aws.Config] comes with an error. *)
Definition LoadDefaultConfig (opts : list LoadOption)
  : M (aws_Config * ptr error) :=
  t ← clock;
  let r := config_LoadDefaultConfig t opts in
  emit (EvLoadDefaultConfig opts r);;
  mret (match r with
        | inl e => (aws_Config_zero, Some e)
        | inr cfg => (cfg, None)
        end).

(** [athena.NewFromConfig(cfg)]: never nil. *)
Definition NewFromConfig (cfg : aws_Config) : M (ptr athena_Client) :=
  emit (EvNewFromConfig cfg);;
  mret (Some (athena_NewFromConfig cfg)).

(** [scope.Counter(name).Inc(delta)] and [scope.Timer(name).Record(d)] *)
Definition Counter_Inc (s : tally_Scope) (name : string) (delta : Z) : M unit :=
  emit (EvCounterInc s name delta).

Definition Timer_Record (s : tally_Scope) (name : string) (d : Z) : M unit :=
  emit (EvTimerRecord s name d).

(** [time.Now()] and [time.Since(t0)] *)
Definition Now : M Z := t ← clock; mret (time_Now t).

Definition Since (t0 : Z) : M Z := t1 ← Now; mret (t1 - t0)%Z.

(** *** connector.go: [Connect] *)

Definition set_tracer (c : SQLConnector) (t : DriverTracer) : SQLConnector :=
  {| config := config c; tracer := t |}.

Definition Connect (env : os.Environ) (ctx : context_Context) (c : SQLConnector)
  : M (SQLConnector * (ptr Connection * ptr error)) :=
  now ← Now;
  let c := set_tracer c (NewDefaultObservability (config c)) in
  let c := match assert_Scope (Value ctx MetricsKey) with
           | Some metrics => set_tracer c (SetScope (tracer c) metrics)
           | None => c
           end in
  let c := match assert_Logger (Value ctx LoggerKey) with
           | Some logger => set_tracer c (SetLogger (tracer c) logger)
           | None => c
           end in
  '(cacheKey, athenaClient, awsConfig, err) ←
    (if (strconv.ParseBool (os.Getenv env "AWS_SDK_LOAD_CONFIG")).1 then
       let profile := GetAWSProfile (config c) in
       let cacheKey := "#" +:+ profile +:+ "#" in
       RLock;;
       '(client, found) ← clients_get cacheKey;
       if (found : bool) then
         RUnlock;;
         mret (cacheKey, client, aws_Config_zero, None)
       else
         RUnlock;;
         '(awsConfig, err) ←
           (if bool_decide (profile ≠ "") then
              LoadDefaultConfig [WithSharedConfigProfile profile]
            else
              LoadDefaultConfig []);
         mret (cacheKey, None, awsConfig, err)
     else if bool_decide (GetAccessID (config c) ≠ "") then
       let cacheKey := GetRegion (config c) +:+ "##" +:+ GetAccessID (config c) in
       RLock;;
       '(client, found) ← clients_get cacheKey;
       if (found : bool) then
         RUnlock;;
         mret (cacheKey, client, aws_Config_zero, None)
       else
         RUnlock;;
         '(awsConfig, err) ←
           LoadDefaultConfig
             [WithRegion (GetRegion (config c));
              WithCredentialsProvider
                (NewStaticCredentialsProvider
                   (GetAccessID (config c))
                   (GetSecretAccessKey (config c))
                   (GetSessionToken (config c)))];
         mret (cacheKey, None, awsConfig, err)
     else
       let cacheKey := GetRegion (config c) +:+ "##" in
       RLock;;
       '(client, found) ← clients_get cacheKey;
       if (found : bool) then
         RUnlock;;
         mret (cacheKey, client, aws_Config_zero, None)
       else
         RUnlock;;
         '(awsConfig, err) ←
           LoadDefaultConfig [WithRegion (GetRegion (config c))];
         mret (cacheKey, None, awsConfig, err));
  match err with
  | Some e =>
      Counter_Inc (Scope (tracer c))
        (DriverName +:+ ".failure.sqlconnector.newsession") 1;;
      mret (c, (None, Some e))
  | None =>
      athenaClient ←
        (match athenaClient with
         | None =>
             Lock;;
             athenaClient ← NewFromConfig awsConfig;
             clients_set cacheKey athenaClient;;
             Unlock;;
             mret athenaClient
         | Some _ => mret athenaClient
         end);
      timeConnect ← Since now;
      let conn := {| athenaAPI := athenaClient; connector := c |} in
      Timer_Record (Scope (tracer c))
        (DriverName +:+ ".connector.connect") timeConnect;;
      mret (c, (Some conn, None))
  end.

End Model.

(** ** wg.go *)

Module wg.
Section Workgroups.

Context {types : GoTypes} {world : Collaborators}.

(** Workgroup is a wrapper of Athena Workgroup. *)
Record Workgroup : Type := {
  Name : string;
  Config : ptr types_WorkGroupConfiguration;
  Tags : ptr WGTags;
}.

Definition NewDefaultWG (name : string)
    (config : ptr types_WorkGroupConfiguration) (tags : ptr WGTags)
  : Workgroup :=
  let wg := {| Name := name; Config := config; Tags := None |} in
  let wg := match config with
            | None => {| Name := Name wg; Config := GetDefaultWGConfig;
                         Tags := Tags wg |}
            | Some _ => wg
            end in
  match tags with
  | Some _ => {| Name := Name wg; Config := Config wg; Tags := tags |}
  | None => {| Name := Name wg; Config := Config wg; Tags := NewWGTags |}
  end.

Definition NewWG (name : string)
    (config : ptr types_WorkGroupConfiguration) (tags : ptr WGTags)
  : Workgroup :=
  {| Name := name; Config := config; Tags := tags |}.

(** [athenaService.GetWorkGroup(ctx, input)]: the SDK answers with an
    output or with an error. *)
Definition GetWorkGroup (ctx : context_Context) (svc : athena_Client)
    (input : GetWorkGroupInput) : M (error + GetWorkGroupOutput) :=
  t ← clock;
  let r := athena_GetWorkGroup t ctx svc input in
  emit (EvGetWorkGroup ctx svc input r);;
  mret r.

(** [athenaService.CreateWorkGroup(ctx, input)]; the callers drop the
    output and keep the error. *)
Definition CreateWorkGroup (ctx : context_Context) (svc : ptr athena_Client)
    (input : CreateWorkGroupInput) : M (ptr error) :=
  t ← clock;
  let err := athena_CreateWorkGroup t ctx svc input in
  emit (EvCreateWorkGroup ctx svc input err);;
  mret err.

(** getWG is to get Athena Workgroup from AWS remotely. *)
Definition getWG (ctx : context_Context) (athenaService : ptr athena_Client)
    (Name : string) : M (ptr types_WorkGroup * ptr error) :=
  match athenaService with
  | None => mret (None, Some ErrAthenaNilAPI)
  | Some svc =>
      r ← GetWorkGroup ctx svc {| gwg_WorkGroup := aws_String Name |};
      match r with
      | inl err => mret (None, Some err)
      | inr getWorkGroupOutput => mret (gwo_WorkGroup getWorkGroupOutput, None)
      end
  end.

(** CreateWGRemotely is to create a Workgroup remotely. *)
Definition CreateWGRemotely (w : Workgroup) (athenaService : ptr athena_Client)
  : M (ptr error) :=
  let tags := WGTags_Get (Tags w) in
  if bool_decide (len tags = 0) then
    CreateWorkGroup context_TODO athenaService
      {| cwg_Configuration := Config w;
         cwg_Name := aws_String (Name w);
         cwg_Tags := None |}
  else
    CreateWorkGroup context_TODO athenaService
      {| cwg_Configuration := Config w;
         cwg_Name := aws_String (Name w);
         cwg_Tags := WGTags_Get (Tags w) |}.

End Workgroups.
End wg.

(** ** Observing executions *)

Section Observations.

Context {types : GoTypes} {world : Collaborators}.

(** The process starts with an empty client map and nothing done yet. *)
Definition initial : Globals := {| clients := ∅; trace := [] |}.

(** The events a computation adds to the trace. *)
Definition events_of {A} (m : M A) (σ : Globals) : list Event :=
  drop (length (trace σ)) (trace (m σ).2).

(** The keys under which the client map is read. *)
Definition keys_read (t : list Event) : list string :=
  omap (λ e, match e with EvMapRead k _ => Some k | _ => None end) t.

(** The option lists handed to [config.LoadDefaultConfig]. *)
Definition loads (t : list Event) : list (list LoadOption) :=
  omap (λ e, match e with
             | EvLoadDefaultConfig opts _ => Some opts
             | _ => None
             end) t.

Definition is_load (e : Event) : bool :=
  match e with EvLoadDefaultConfig _ _ => true | _ => false end.

Definition is_construct (e : Event) : bool :=
  match e with EvNewFromConfig _ => true | _ => false end.

Definition is_store (e : Event) : bool :=
  match e with EvMapWrite _ _ => true | _ => false end.

Definition is_remote_call (e : Event) : bool :=
  match e with
  | EvCreateWorkGroup _ _ _ _ | EvGetWorkGroup _ _ _ _ => true
  | _ => false
  end.

Definition is_counter (name : string) (e : Event) : bool :=
  match e with
  | EvCounterInc _ n _ => bool_decide (n = name)
  | _ => false
  end.

(** Authentication (configuration loading) or client construction. *)
Definition is_io (e : Event) : bool := is_load e || is_construct e.

Definition is_build (e : Event) : bool := is_construct e || is_store e.

(** What the calling goroutine holds of [clientMutext]. *)
Inductive Held : Type := Free | ReadHeld | WriteHeld.

#[global] Instance Held_eq_dec : EqDecision Held.
Proof. solve_decision. Defined.

Definition lock_step (h : Held) (e : Event) : Held :=
  match e with
  | EvRLock => ReadHeld
  | EvLock => WriteHeld
  | EvRUnlock | EvUnlock => Free
  | _ => h
  end.

(** The lock states in which the events selected by [P] happen, in order,
    for a trace that starts in state [h]. *)
Fixpoint held_at (P : Event → bool) (h : Held) (t : list Event) : list Held :=
  match t with
  | [] => []
  | e :: t' => (if P e then [h] else []) ++ held_at P (lock_step h e) t'
  end.

(** Every lock taken is released and none is taken twice. *)
Fixpoint well_bracketed (h : Held) (t : list Event) : bool :=
  match t with
  | [] => bool_decide (h = Free)
  | e :: t' =>
      match e, h with
      | (EvRLock | EvLock), Free => well_bracketed (lock_step h e) t'
      | EvRUnlock, ReadHeld => well_bracketed Free t'
      | EvUnlock, WriteHeld => well_bracketed Free t'
      | (EvRLock | EvLock | EvRUnlock | EvUnlock), _ => false
      | _, _ => well_bracketed h t'
      end
  end.

(** *** The three strategies, as the specification names them *)

Inductive Strategy : Type := EnvDelegated | StaticCredentials | RegionOnly.

Definition flag_enabled (env : os.Environ) : bool :=
  (strconv.ParseBool (os.Getenv env "AWS_SDK_LOAD_CONFIG")).1.

Definition strategy_of (env : os.Environ) (cfg : Config) : Strategy :=
  if flag_enabled env then EnvDelegated
  else if bool_decide (GetAccessID cfg ≠ "") then StaticCredentials
  else RegionOnly.

Definition cache_key (s : Strategy) (cfg : Config) : string :=
  match s with
  | EnvDelegated => "#" +:+ GetAWSProfile cfg +:+ "#"
  | StaticCredentials => GetRegion cfg +:+ "##" +:+ GetAccessID cfg
  | RegionOnly => GetRegion cfg +:+ "##"
  end.

Definition load_options (s : Strategy) (cfg : Config) : list LoadOption :=
  match s with
  | EnvDelegated =>
      if bool_decide (GetAWSProfile cfg ≠ "")
      then [WithSharedConfigProfile (GetAWSProfile cfg)] else []
  | StaticCredentials =>
      [WithRegion (GetRegion cfg);
       WithCredentialsProvider
         (NewStaticCredentialsProvider (GetAccessID cfg)
            (GetSecretAccessKey cfg) (GetSessionToken cfg))]
  | RegionOnly => [WithRegion (GetRegion cfg)]
  end.

(** Everything the three strategies read: the flag and the five fields. *)
Definition auth_fields (env : os.Environ) (cfg : Config)
  : bool * string * string * string * string * string :=
  (flag_enabled env, GetRegion cfg, GetAWSProfile cfg, GetAccessID cfg,
   GetSecretAccessKey cfg, GetSessionToken cfg).

(** How a Configuration authenticates: the strategy and the options it
    loads the external configuration with. *)
Definition authentication (env : os.Environ) (cfg : Config)
  : Strategy * list LoadOption :=
  (strategy_of env cfg, load_options (strategy_of env cfg) cfg).

(** The separator of the key occurs in the string. *)
Fixpoint has_hash (s : string) : bool :=
  match s with
  | EmptyString => false
  | String a s' => bool_decide (a = "#"%char) || has_hash s'
  end.

(** The default observability object with the overrides of the context
    applied. *)
Definition installed_tracer (ctx : context_Context) (cfg : Config)
  : DriverTracer :=
  let t := NewDefaultObservability cfg in
  let t := match assert_Scope (Value ctx MetricsKey) with
           | Some metrics => SetScope t metrics
           | None => t
           end in
  match assert_Logger (Value ctx LoggerKey) with
  | Some l => SetLogger t l
  | None => t
  end.

Definition failure_counter : string :=
  DriverName +:+ ".failure.sqlconnector.newsession".

Definition connect_timer : string := DriverName +:+ ".connector.connect".

(** The shape the three branches of [Connect] share: look the key up
    under the read lock and, on a miss, load a configuration with the
    options of the branch. *)
Definition lookup_or_load (key : string) (opts : list LoadOption)
  : M (string * ptr athena_Client * aws_Config * ptr error) :=
  RLock;;
  '(client, found) ← clients_get key;
  if (found : bool) then
    RUnlock;;
    mret (key, client, aws_Config_zero, None)
  else
    RUnlock;;
    '(awsConfig, err) ← LoadDefaultConfig opts;
    mret (key, None, awsConfig, err).

(** [Connect], case by case: on what the map holds under the key and on
    what configuration loading answers. *)
Definition Connect_cases (env : os.Environ) (ctx : context_Context)
    (c : SQLConnector) (σ : Globals)
  : (SQLConnector * (ptr Connection * ptr error)) * Globals :=
  let c' := {| config := config c;
               tracer := installed_tracer ctx (config c) |} in
  let s := strategy_of env (config c) in
  let key := cache_key s (config c) in
  let n := length (trace σ) in
  let sc := scope (tracer c') in
  let lookup := [EvRLock; EvMapRead key (clients σ !! key); EvRUnlock] in
  let build cfg :=
    [EvLock; EvNewFromConfig cfg;
     EvMapWrite key (Some (athena_NewFromConfig cfg)); EvUnlock] in
  let fresh cfg pre :=
    ((c', (Some {| athenaAPI := Some (athena_NewFromConfig cfg);
                   connector := c' |}, None)),
     {| clients := <[key := Some (athena_NewFromConfig cfg)]> (clients σ);
        trace := trace σ ++ lookup ++ pre ++ build cfg ++
          [EvTimerRecord sc connect_timer
             (time_Now (n + 7 + length pre) - time_Now n)] |}) in
  match clients σ !! key with
  | Some (Some h) =>
      ((c', (Some {| athenaAPI := Some h; connector := c' |}, None)),
       {| clients := clients σ;
          trace := trace σ ++ lookup ++
            [EvTimerRecord sc connect_timer
               (time_Now (n + 3) - time_Now n)] |})
  | Some None => fresh aws_Config_zero []
  | None =>
      let opts := load_options s (config c) in
      match config_LoadDefaultConfig (n + 3) opts with
      | inl e =>
          ((c', (None, Some e)),
           {| clients := clients σ;
              trace := trace σ ++ lookup ++
                [EvLoadDefaultConfig opts (inl e);
                 EvCounterInc sc failure_counter 1] |})
      | inr cfg => fresh cfg [EvLoadDefaultConfig opts (inr cfg)]
      end
  end.

(** The entry under [k] is a client that was constructed, under the write
    lock, from a configuration that had just been loaded successfully. *)
Definition built_from_loaded (t : list Event) (k : string)
    (v : ptr athena_Client) : Prop :=
  ∃ pre post opts cfg,
    v = Some (athena_NewFromConfig cfg)
    ∧ t = pre ++ [EvLoadDefaultConfig opts (inr cfg); EvLock;
                  EvNewFromConfig cfg; EvMapWrite k v; EvUnlock] ++ post.

Definition cache_ok (σ : Globals) : Prop :=
  ∀ k v, clients σ !! k = Some v → built_from_loaded (trace σ) k v.

(** One call of [Connect] and a sequence of calls, each with its own
    environment, context and connector. *)
Record Call : Type := {
  call_env : os.Environ;
  call_ctx : context_Context;
  call_connector : SQLConnector;
}.

Definition step (σ : Globals) (k : Call) : Globals :=
  (Connect (call_env k) (call_ctx k) (call_connector k) σ).2.

Definition run (calls : list Call) (σ : Globals) : Globals :=
  foldl step σ calls.

Definition is_read (e : Event) : bool :=
  match e with EvMapRead _ _ => true | _ => false end.

Definition is_metric (e : Event) : bool :=
  match e with
  | EvCounterInc _ _ _ | EvTimerRecord _ _ _ => true
  | _ => false
  end.

(** The values stored under [k], in order. *)
Definition writes_to (k : string) (t : list Event)
  : list (ptr athena_Client) :=
  omap (λ e, match e with
             | EvMapWrite k' v => if bool_decide (k' = k) then Some v else None
             | _ => None
             end) t.

(** No entry is nil, and the values stored under a key so far are none
    when the key is absent and the entry alone when it is present. *)
Definition written_once (σ : Globals) : Prop :=
  (∀ k, clients σ !! k ≠ Some None)
  ∧ ∀ k, writes_to k (trace σ)
         = match clients σ !! k with Some v => [v] | None => [] end.


(** The scope [Connect] records its metric on: the one of the context
    when it carries one, the default one of the Configuration otherwise. *)
Definition metric_scope (ctx : context_Context) (cfg : Config) : tally_Scope :=
  match ctx MetricsKey with
  | Some (VScope s) => s
  | _ => scope (NewDefaultObservability cfg)
  end.

End Observations.

(** ** Goroutines

    [Connect] statement by statement, for calls that run at the same time:
    a goroutine stands at a program point with its local variables, and
    one step executes the statement at that point on the state the
    goroutines share. [RLock] and [Lock] have no step while they block. *)

Section Goroutines.

Context {types : GoTypes} {world : Collaborators}.

(** [sync.RWMutex]: the number of read locks held and whether the write
    lock is held. *)
Record RWMutex : Type := {
  readers : nat;
  writer : bool;
}.

(** [clients], [clientMutext] and the connectors the goroutines point to;
    a pointer to a connector is its index. *)
Record Shared : Type := {
  globals : Globals;
  clientMutext : RWMutex;
  connectors : list SQLConnector;
}.

(** The program points of [Connect] with the local variables that are
    live there: [now], [cacheKey], the options of the branch, [client]
    and [found], [awsConfig], [athenaClient], [err], [timeConnect]. *)
Inductive Pc : Type :=
| PcNow
| PcNewTracer (now : Z)
| PcSetScope (now : Z)
| PcSetLogger (now : Z)
| PcRLock (now : Z) (cacheKey : string) (opts : list LoadOption)
| PcLookup (now : Z) (cacheKey : string) (opts : list LoadOption)
| PcRUnlock (now : Z) (cacheKey : string) (opts : list LoadOption)
    (client : ptr athena_Client) (found : bool)
| PcLoad (now : Z) (cacheKey : string) (opts : list LoadOption)
| PcCounter (err : error)
| PcLock (now : Z) (cacheKey : string) (awsConfig : aws_Config)
| PcNewFromConfig (now : Z) (cacheKey : string) (awsConfig : aws_Config)
| PcStore (now : Z) (cacheKey : string) (athenaClient : ptr athena_Client)
| PcUnlock (now : Z) (athenaClient : ptr athena_Client)
| PcSince (now : Z) (athenaClient : ptr athena_Client)
| PcTimer (athenaClient : ptr athena_Client) (timeConnect : Z)
| PcReturned (r : ptr Connection * ptr error)
| PcPanic.

(** The key and the loading options of the branch [Connect] takes. *)
Definition resolve (env : os.Environ) (cfg : Config)
  : string * list LoadOption :=
  if (strconv.ParseBool (os.Getenv env "AWS_SDK_LOAD_CONFIG")).1 then
    let profile := GetAWSProfile cfg in
    ("#" +:+ profile +:+ "#",
     if bool_decide (profile ≠ "")
     then [WithSharedConfigProfile profile] else [])
  else if bool_decide (GetAccessID cfg ≠ "") then
    (GetRegion cfg +:+ "##" +:+ GetAccessID cfg,
     [WithRegion (GetRegion cfg);
      WithCredentialsProvider
        (NewStaticCredentialsProvider (GetAccessID cfg)
           (GetSecretAccessKey cfg) (GetSessionToken cfg))])
  else
    (GetRegion cfg +:+ "##", [WithRegion (GetRegion cfg)]).

Definition push (e : Event) (s : Shared) : Shared :=
  {| globals := {| clients := clients (globals s);
                   trace := trace (globals s) ++ [e] |};
     clientMutext := clientMutext s;
     connectors := connectors s |}.

Definition set_mutex (m : RWMutex) (s : Shared) : Shared :=
  {| globals := globals s; clientMutext := m; connectors := connectors s |}.

Definition set_client (key : string) (v : ptr athena_Client) (s : Shared)
  : Shared :=
  {| globals := {| clients := <[key := v]> (clients (globals s));
                   trace := trace (globals s) |};
     clientMutext := clientMutext s;
     connectors := connectors s |}.

Definition set_connector (c : nat) (conn : SQLConnector) (s : Shared)
  : Shared :=
  {| globals := globals s;
     clientMutext := clientMutext s;
     connectors := <[c := conn]> (connectors s) |}.

Definition now_of (s : Shared) : Z := time_Now (length (trace (globals s))).

(** A goroutine that runs [c.Connect(ctx)] in the environment [env]. *)
Record Goroutine : Type := {
  g_env : os.Environ;
  g_ctx : context_Context;
  g_c : nat;
  g_pc : Pc;
}.

(** One statement of [Connect]; [None] when the goroutine blocks or has
    finished. Dereferencing a connector that is not there panics. *)
Definition go_step (g : Goroutine) (s : Shared) : option (Pc * Shared) :=
  let deref (k : SQLConnector → Pc * Shared) : option (Pc * Shared) :=
    Some (match connectors s !! g_c g with
          | Some conn => k conn
          | None => (PcPanic, s)
          end) in
  match g_pc g with
  | PcNow => Some (PcNewTracer (now_of s), s)
  | PcNewTracer now =>
      deref (λ conn,
        (PcSetScope now,
         set_connector (g_c g)
           (set_tracer conn (NewDefaultObservability (config conn))) s))
  | PcSetScope now =>
      match assert_Scope (Value (g_ctx g) MetricsKey) with
      | Some metrics =>
          deref (λ conn,
            (PcSetLogger now,
             set_connector (g_c g)
               (set_tracer conn (SetScope (tracer conn) metrics)) s))
      | None => Some (PcSetLogger now, s)
      end
  | PcSetLogger now =>
      deref (λ conn,
        let conn := match assert_Logger (Value (g_ctx g) LoggerKey) with
                    | Some l => set_tracer conn (SetLogger (tracer conn) l)
                    | None => conn
                    end in
        let '(cacheKey, opts) := resolve (g_env g) (config conn) in
        (PcRLock now cacheKey opts, set_connector (g_c g) conn s))
  | PcRLock now cacheKey opts =>
      if writer (clientMutext s) then None
      else Some (PcLookup now cacheKey opts,
                 push EvRLock
                   (set_mutex {| readers := S (readers (clientMutext s));
                                 writer := false |} s))
  | PcLookup now cacheKey opts =>
      let r := clients (globals s) !! cacheKey in
      Some (PcRUnlock now cacheKey opts (default None r)
              (bool_decide (is_Some r)),
            push (EvMapRead cacheKey r) s)
  | PcRUnlock now cacheKey opts client found =>
      Some ((if found then
               match client with
               | None => PcLock now cacheKey aws_Config_zero
               | Some _ => PcSince now client
               end
             else PcLoad now cacheKey opts),
            push EvRUnlock
              (set_mutex {| readers := pred (readers (clientMutext s));
                            writer := writer (clientMutext s) |} s))
  | PcLoad now cacheKey opts =>
      let r := config_LoadDefaultConfig (length (trace (globals s))) opts in
      Some (match r with
            | inl err => PcCounter err
            | inr awsConfig => PcLock now cacheKey awsConfig
            end,
            push (EvLoadDefaultConfig opts r) s)
  | PcCounter err =>
      deref (λ conn,
        (PcReturned (None, Some err),
         push (EvCounterInc (Scope (tracer conn)) failure_counter 1) s))
  | PcLock now cacheKey awsConfig =>
      if writer (clientMutext s)
         || bool_decide (readers (clientMutext s) ≠ 0)
      then None
      else Some (PcNewFromConfig now cacheKey awsConfig,
                 push EvLock
                   (set_mutex {| readers := 0; writer := true |} s))
  | PcNewFromConfig now cacheKey awsConfig =>
      Some (PcStore now cacheKey (Some (athena_NewFromConfig awsConfig)),
            push (EvNewFromConfig awsConfig) s)
  | PcStore now cacheKey athenaClient =>
      Some (PcUnlock now athenaClient,
            push (EvMapWrite cacheKey athenaClient)
              (set_client cacheKey athenaClient s))
  | PcUnlock now athenaClient =>
      Some (PcSince now athenaClient,
            push EvUnlock
              (set_mutex {| readers := readers (clientMutext s);
                            writer := false |} s))
  | PcSince now athenaClient =>
      Some (PcTimer athenaClient (now_of s - now), s)
  | PcTimer athenaClient timeConnect =>
      deref (λ conn,
        (PcReturned (Some {| athenaAPI := athenaClient; connector := conn |},
                     None),
         push (EvTimerRecord (Scope (tracer conn)) connect_timer timeConnect)
           s))
  | PcReturned _ | PcPanic => None
  end.

Definition at_pc (g : Goroutine) (pc : Pc) : Goroutine :=
  {| g_env := g_env g; g_ctx := g_ctx g; g_c := g_c g; g_pc := pc |}.

(** The goroutines and the state they share. *)
Record System : Type := {
  shared : Shared;
  goroutines : list Goroutine;
}.

(** Goroutine [i] takes a step; nothing happens when there is no such
    goroutine or when it cannot step. *)
Definition sys_step (sys : System) (i : nat) : System :=
  match goroutines sys !! i with
  | None => sys
  | Some g =>
      match go_step g (shared sys) with
      | None => sys
      | Some (pc, s) =>
          {| shared := s; goroutines := <[i := at_pc g pc]> (goroutines sys) |}
      end
  end.

(** A schedule names the goroutine that steps next. *)
Definition exec (sched : list nat) (sys : System) : System :=
  foldl sys_step sys sched.

(** The goroutines before their first statement, on a free mutex. *)
Definition go (env : os.Environ) (ctx : context_Context) (c : nat)
  : Goroutine :=
  {| g_env := env; g_ctx := ctx; g_c := c; g_pc := PcNow |}.

Definition is_start (g : Goroutine) : bool :=
  match g_pc g with PcNow => true | _ => false end.

Definition boot (σ : Globals) (conns : list SQLConnector)
    (gs : list Goroutine) : System :=
  {| shared := {| globals := σ;
                  clientMutext := {| readers := 0; writer := false |};
                  connectors := conns |};
     goroutines := gs |}.

(** The critical sections. *)
Definition in_read (g : Goroutine) : bool :=
  match g_pc g with
  | PcLookup _ _ _ | PcRUnlock _ _ _ _ _ => true
  | _ => false
  end.

Definition in_write (g : Goroutine) : bool :=
  match g_pc g with
  | PcNewFromConfig _ _ _ | PcStore _ _ _ | PcUnlock _ _ => true
  | _ => false
  end.

Definition finished (g : Goroutine) : bool :=
  match g_pc g with
  | PcReturned _ | PcPanic => true
  | _ => false
  end.

Definition count (P : Goroutine → bool) (gs : list Goroutine) : nat :=
  length (List.filter P gs).

(** The mutex counts the goroutines in the critical sections: as many
    read locks as readers, the write lock held by one writer or by none,
    and never readers beside a writer. *)
Definition mutex_ok (sys : System) : Prop :=
  readers (clientMutext (shared sys)) = count in_read (goroutines sys)
  ∧ count in_write (goroutines sys)
    = (if writer (clientMutext (shared sys)) then 1 else 0)
  ∧ (writer (clientMutext (shared sys)) = true →
     readers (clientMutext (shared sys)) = 0).

(** The handle a goroutine is about to store, to wrap or has returned. *)
Definition handle_of (pc : Pc) : option (ptr athena_Client) :=
  match pc with
  | PcStore _ _ cl | PcUnlock _ cl | PcSince _ cl | PcTimer cl _ => Some cl
  | PcReturned (Some conn, _) => Some (athenaAPI conn)
  | _ => None
  end.

(** No nil handle in the map nor in the hands of a goroutine. *)
Definition handles_ok (sys : System) : Prop :=
  (∀ k, clients (globals (shared sys)) !! k ≠ Some None)
  ∧ ∀ i g, goroutines sys !! i = Some g → handle_of (g_pc g) ≠ Some None.

(** The statements a goroutine has at most left to execute. *)
Definition steps_left (pc : Pc) : nat :=
  match pc with
  | PcNow => 14
  | PcNewTracer _ => 13
  | PcSetScope _ => 12
  | PcSetLogger _ => 11
  | PcRLock _ _ _ => 10
  | PcLookup _ _ _ => 9
  | PcRUnlock _ _ _ _ _ => 8
  | PcLoad _ _ _ => 7
  | PcLock _ _ _ => 6
  | PcNewFromConfig _ _ _ => 5
  | PcStore _ _ _ => 4
  | PcUnlock _ _ => 3
  | PcSince _ _ => 2
  | PcTimer _ _ | PcCounter _ => 1
  | PcReturned _ | PcPanic => 0
  end.

End Goroutines.

(** ** A concrete world

    Strings stand for the opaque values; a client remembers the options
    of the configuration it was built from. *)

Definition sample_types : GoTypes := {|
  error := string;
  aws_Config := list LoadOption;
  aws_Config_zero := [];
  athena_Client := list LoadOption;
  tally_Scope := string;
  zap_Logger := string;
  types_WorkGroupConfiguration := string;
  types_WorkGroup := string;
  types_Tag := string * string;
  WGTags := list (string * string);
|}.

Definition sample_world
    (load : nat → list LoadOption → string + list LoadOption)
  : @Collaborators sample_types :=
  @Build_Collaborators sample_types
    (* DriverName *) "awsathena"
    (* ErrAthenaNilAPI *) "athenaAPI must not be nil"
    (* NewDefaultObservability *)
    (λ _, @Build_DriverTracer sample_types "noop" None)
    (* NewWGTags *) (Some [])
    (* WGTags_Get *) (λ t, t)
    (* GetDefaultWGConfig *) (Some "default")
    (* config_LoadDefaultConfig *) load
    (* athena_NewFromConfig *) (λ cfg, cfg)
    (* athena_CreateWorkGroup *) (λ _ _ _ _, None)
    (* athena_GetWorkGroup *)
    (λ _ _ _ input,
       inr (@Build_GetWorkGroupOutput sample_types
              (gwg_WorkGroup input)))
    (* time_Now *) Z.of_nat.

(** Loading succeeds with the options as the configuration, or fails. *)
Definition load_ok : nat → list LoadOption → string + list LoadOption :=
  λ _ opts, inr opts.

Definition load_failing : nat → list LoadOption → string + list LoadOption :=
  λ _ _, inl "no credentials".

(** Loading fails until four events have happened and succeeds from then
    on: a first [Connect] fails, a retry succeeds. *)
Definition load_flaky : nat → list LoadOption → string + list LoadOption :=
  λ t opts, if bool_decide (t ≤ 3)%nat then inl "no credentials" else inr opts.

Definition sample_config (region profile accessID secret token : string)
  : Config :=
  {| GetRegion := region; GetAWSProfile := profile; GetAccessID := accessID;
     GetSecretAccessKey := secret; GetSessionToken := token |}.

(** Region only, and static credentials with a given secret. *)
Definition east_config : Config := sample_config "us-east-1" "" "" "" "".

Definition west_config (secret : string) : Config :=
  sample_config "us-west-2" "" "AKIAEXAMPLE" secret "token".

Definition sample_connector (cfg : Config) : @SQLConnector sample_types :=
  @Build_SQLConnector sample_types cfg
    (@Build_DriverTracer sample_types "stale" None).

Definition ok : @Collaborators sample_types := sample_world load_ok.

Definition failing : @Collaborators sample_types := sample_world load_failing.

Definition flaky : @Collaborators sample_types := sample_world load_flaky.

Definition ctx0 : @context_Context sample_types := context_TODO.

(** A context that carries a metrics scope. *)
Definition ctx_metrics : @context_Context sample_types :=
  λ k, match k with
       | MetricsKey => Some (@VScope sample_types "override")
       | _ => None
       end.

(** A map that holds a nil handle under the key of [east_config]. *)
Definition nil_entry : @Globals sample_types :=
  @Build_Globals sample_types {[ "us-east-1##" := None ]} [].

(** An environment without AWS_SDK_LOAD_CONFIG. *)
Definition unset : os.Environ := ∅.

Definition east : @SQLConnector sample_types := sample_connector east_config.

Definition west (secret : string) : @SQLConnector sample_types :=
  sample_connector (west_config secret).

(** The state after one successful call for [east]. *)
Definition warm : @Globals sample_types :=
  (Connect (world := ok) unset ctx0 east initial).2.

Definition east_call : @Call sample_types :=
  {| call_env := unset; call_ctx := ctx0; call_connector := east |}.

Definition west_call : @Call sample_types :=
  {| call_env := unset; call_ctx := ctx0;
     call_connector := west "secret-1" |}.

(** Two goroutines that call [Connect] on the connector [east]; the
    first carries a metrics scope in its context. *)
Definition two_calls : list (@Goroutine sample_types) :=
  [go unset ctx_metrics 0; go unset ctx0 0].

(** The first goroutine has taken the write lock and the second waits
    for the read lock. *)
Definition first_writes : list nat :=
  [0; 0; 0; 0; 1; 1; 1; 1; 0; 0; 0; 0; 0; 1].

(** Both goroutines miss before either stores. *)
Definition both_miss : list nat :=
  replicate 4 0 ++ replicate 4 1 ++ replicate 3 0 ++ replicate 3 1
  ++ replicate 7 0 ++ replicate 7 1.

Section Proofs.

Context {types : GoTypes} {world : Collaborators}.

Lemma lookup_or_load_cases key opts σ :
  lookup_or_load key opts σ =
  let lookup := [EvRLock; EvMapRead key (clients σ !! key); EvRUnlock] in
  match clients σ !! key with
  | Some v =>
      ((key, v, aws_Config_zero, None),
       {| clients := clients σ; trace := trace σ ++ lookup |})
  | None =>
      match config_LoadDefaultConfig (length (trace σ) + 3) opts with
      | inl e =>
          ((key, None, aws_Config_zero, Some e),
           {| clients := clients σ;
              trace := trace σ ++ lookup ++
                         [EvLoadDefaultConfig opts (inl e)] |})
      | inr cfg =>
          ((key, None, cfg, None),
           {| clients := clients σ;
              trace := trace σ ++ lookup ++
                         [EvLoadDefaultConfig opts (inr cfg)] |})
      end
  end.
Proof.
  destruct σ as [cl t0].
  unfold lookup_or_load, LoadDefaultConfig, RLock, RUnlock, clients_get,
    clock, emit, mbind, mret, M_bind, M_ret.
  cbn [clients trace].
  destruct (cl !! key) as [v|] eqn:E; cbn [default].
  - rewrite bool_decide_eq_true_2 by eauto.
    cbn [clients trace]. by rewrite <- !app_assoc.
  - rewrite bool_decide_eq_false_2 by (intros [? ?]; done).
    cbn [clients trace].
    rewrite !length_app. cbn [length].
    replace (length t0 + 1 + 1 + 1) with (length t0 + 3) by lia.
    destruct (config_LoadDefaultConfig _ _); by rewrite <- !app_assoc.
Qed.

Lemma Connect_lookup_or_load env ctx c :
  Connect env ctx c =
  (now ← Now;
   let c := {| config := config c;
               tracer := installed_tracer ctx (config c) |} in
   let s := strategy_of env (config c) in
   '(cacheKey, athenaClient, awsConfig, err) ←
     lookup_or_load (cache_key s (config c)) (load_options s (config c));
   match err with
   | Some e =>
       Counter_Inc (Scope (tracer c)) failure_counter 1;;
       mret (c, (None, Some e))
   | None =>
       athenaClient ←
         (match athenaClient with
          | None =>
              Lock;;
              athenaClient ← NewFromConfig awsConfig;
              clients_set cacheKey athenaClient;;
              Unlock;;
              mret athenaClient
          | Some _ => mret athenaClient
          end);
       timeConnect ← Since now;
       let conn := {| athenaAPI := athenaClient; connector := c |} in
       Timer_Record (Scope (tracer c)) connect_timer timeConnect;;
       mret (c, (Some conn, None))
   end).
Proof.
  unfold Connect, strategy_of, flag_enabled, installed_tracer, lookup_or_load.
  destruct (assert_Scope _), (assert_Logger _);
    cbn [config tracer set_tracer];
    (destruct (strconv.ParseBool _).1; [|case_bool_decide]);
    cbn [cache_key load_options]; try reflexivity;
    case_bool_decide; reflexivity.
Qed.

Lemma Connect_unfold env ctx c σ :
  Connect env ctx c σ = Connect_cases env ctx c σ.
Proof.
  rewrite Connect_lookup_or_load.
  unfold Connect_cases.
  cbv zeta.
  unfold mbind at 1. unfold M_bind at 1.
  unfold Now at 1. unfold clock, mbind, mret, M_bind, M_ret.
  rewrite lookup_or_load_cases.
  cbn [config tracer Scope].
  generalize (cache_key (strategy_of env (config c)) (config c)) as key.
  generalize (load_options (strategy_of env (config c)) (config c)) as opts.
  intros opts key. destruct σ as [cl t0]. cbn [clients trace].
  unfold Since, Now, NewFromConfig, Counter_Inc, Timer_Record, Lock, Unlock,
    clients_set, clock, emit, mbind, mret, M_bind, M_ret.
  destruct (cl !! key) as [[h|]|];
    [| |destruct (config_LoadDefaultConfig _ _)];
    cbn [clients trace length];
    rewrite ?length_app; cbn [length];
    rewrite <- ?app_assoc; cbn [app];
    rewrite <- ?Nat.add_assoc; cbn [Nat.add];
    reflexivity.
Qed.

(** C1: [Connect] resolves exactly one strategy in the order
    environment-delegated (the flag AWS_SDK_LOAD_CONFIG parses as true),
    static credentials (a non-empty access id), region only: it reads the
    client map under exactly one key, [#profile#], [region##accessid] or
    [region##] respectively, and on a miss loads exactly one configuration
    with the options of that strategy. An unset flag and a value that
    does not parse count as false, and region "us-east-1" with empty
    profile and access id and the flag unset gives the key "us-east-1##". *)
Theorem Connect_resolves_one_strategy env ctx c σ :
  let cfg := config c in
  let flag := (strconv.ParseBool (os.Getenv env "AWS_SDK_LOAD_CONFIG")).1 in
  let key :=
    if flag then "#" +:+ GetAWSProfile cfg +:+ "#"
    else if bool_decide (GetAccessID cfg ≠ "")
         then GetRegion cfg +:+ "##" +:+ GetAccessID cfg
         else GetRegion cfg +:+ "##" in
  let opts :=
    if flag then
      if bool_decide (GetAWSProfile cfg ≠ "")
      then [WithSharedConfigProfile (GetAWSProfile cfg)] else []
    else if bool_decide (GetAccessID cfg ≠ "")
         then [WithRegion (GetRegion cfg);
               WithCredentialsProvider
                 (NewStaticCredentialsProvider (GetAccessID cfg)
                    (GetSecretAccessKey cfg) (GetSessionToken cfg))]
         else [WithRegion (GetRegion cfg)] in
  let ev := events_of (Connect env ctx c) σ in
  keys_read ev = [key]
  ∧ loads ev = (if bool_decide (clients σ !! key = None) then [opts] else [])
  ∧ key = cache_key (strategy_of env cfg) cfg
  ∧ flag = bool_decide (os.Getenv env "AWS_SDK_LOAD_CONFIG"
                          ∈ ["1"; "t"; "T"; "true"; "TRUE"; "True"])
  ∧ flag_enabled (delete "AWS_SDK_LOAD_CONFIG" env) = false
  ∧ (∀ s, (strconv.ParseBool s).2 = None ∨ (strconv.ParseBool s).1 = false)
  ∧ (∀ secret token tr,
       keys_read
         (events_of
            (Connect (delete "AWS_SDK_LOAD_CONFIG" env) ctx
               {| config := sample_config "us-east-1" "" "" secret token;
                  tracer := tr |}) σ)
       = ["us-east-1##"]).
Proof.
  intros cfg flag key opts ev.
  assert (Hkey : key = cache_key (strategy_of env cfg) cfg).
  { unfold key, strategy_of, flag_enabled. fold flag.
    destruct flag; [done|]. by case_bool_decide. }
  assert (Hopts : opts = load_options (strategy_of env cfg) cfg).
  { unfold opts, strategy_of, flag_enabled. fold flag.
    destruct flag; [done|]. by case_bool_decide. }
  assert (Hunset : flag_enabled (delete "AWS_SDK_LOAD_CONFIG" env) = false).
  { unfold flag_enabled, os.Getenv. by rewrite lookup_delete_eq. }
  assert (Hev : ∀ env' c', 
    let k := cache_key (strategy_of env' (config c')) (config c') in
    let e := events_of (Connect env' ctx c') σ in
    keys_read e = [k] ∧
    loads e = if bool_decide (clients σ !! k = None)
              then [load_options (strategy_of env' (config c')) (config c')]
              else []).
  { intros env' c' k e. unfold e, events_of.
    rewrite Connect_unfold. unfold Connect_cases. fold k.
    destruct (clients σ !! k) as [[h|]|] eqn:E;
      [| |destruct (config_LoadDefaultConfig _ _)];
      cbn [snd trace]; rewrite drop_app_length;
      case_bool_decide; by simplify_eq. }
  split_and!.
  - rewrite Hkey. apply Hev.
  - rewrite Hkey, Hopts. apply Hev.
  - done.
  - unfold flag, strconv.ParseBool. by repeat case_bool_decide.
  - done.
  - intros s. unfold strconv.ParseBool. repeat case_bool_decide; auto.
  - intros secret token tr.
    destruct (Hev (delete "AWS_SDK_LOAD_CONFIG" env)
                {| config := sample_config "us-east-1" "" "" secret token;
                   tracer := tr |}) as [-> _].
    unfold strategy_of. rewrite Hunset. done.
Qed.

(** What one call leaves behind, by cases on the lookup. *)
Lemma Connect_hit env ctx c σ h :
  clients σ !! cache_key (strategy_of env (config c)) (config c)
    = Some (Some h) →
  Connect env ctx c σ =
  let c' := {| config := config c;
               tracer := installed_tracer ctx (config c) |} in
  let key := cache_key (strategy_of env (config c)) (config c) in
  ((c', (Some {| athenaAPI := Some h; connector := c' |}, None)),
   {| clients := clients σ;
      trace := trace σ ++
        [EvRLock; EvMapRead key (Some (Some h)); EvRUnlock;
         EvTimerRecord (scope (tracer c')) connect_timer
           (time_Now (length (trace σ) + 3) - time_Now (length (trace σ)))]
   |}).
Proof. intros E. rewrite Connect_unfold. unfold Connect_cases. by rewrite E. Qed.

(** A handle in the map stays where it is, whatever is called next. *)
Lemma step_keeps_handle σ call k h :
  clients σ !! k = Some (Some h) → clients (step σ call) !! k = Some (Some h).
Proof.
  intros Hk. unfold step. rewrite Connect_unfold. unfold Connect_cases.
  cbv zeta. set (key := cache_key _ _).
  destruct (clients σ !! key) as [[h'|]|] eqn:E;
    [| |destruct (config_LoadDefaultConfig _ _)];
    cbn [snd clients]; try done;
    (rewrite lookup_insert_ne; [done|]); intros ->; congruence.
Qed.

Lemma run_keeps_handle calls σ k h :
  clients σ !! k = Some (Some h) → clients (run calls σ) !! k = Some (Some h).
Proof.
  revert σ. induction calls as [|call calls IH]; intros σ Hk; [done|].
  apply IH. by apply step_keeps_handle.
Qed.

(** C2: with the flag disabled and an empty access id, once a first call
    of [Connect] has succeeded, a second call with the same Configuration,
    whatever calls were made in between, finds the handle of the first
    call in the client map under the same key [region##]: it loads no
    configuration and constructs no client. *)
Theorem Connect_twice_hits_cache env ctx c σ between env' ctx' c' :
  flag_enabled env = false →
  GetAccessID (config c) = "" →
  (Connect env ctx c σ).1.2.2 = None →
  flag_enabled env' = false →
  config c' = config c →
  let first := Connect env ctx c σ in
  let σ' := run between first.2 in
  let second := Connect env' ctx' c' σ' in
  let ev := events_of (Connect env' ctx' c') σ' in
  let key := GetRegion (config c) +:+ "##" in
  loads ev = []
  ∧ List.filter is_load ev = []
  ∧ List.filter is_construct ev = []
  ∧ ∃ h tm,
      clients first.2 !! key = Some (Some h)
      ∧ athenaAPI <$> first.1.2.1 = Some (Some h)
      ∧ ev = [EvRLock; EvMapRead key (Some (Some h)); EvRUnlock; tm]
      ∧ athenaAPI <$> second.1.2.1 = Some (Some h)
      ∧ second.1.2.2 = None
      ∧ clients second.2 = clients σ'.
Proof.
  intros Hflag Hid Hok Hflag' Hcfg first σ' second ev key.
  assert (Hk : cache_key (strategy_of env (config c)) (config c) = key).
  { unfold strategy_of. rewrite Hflag, Hid. done. }
  assert (Hk' : cache_key (strategy_of env' (config c')) (config c') = key).
  { unfold strategy_of. rewrite Hflag', Hcfg, Hid. done. }
  assert (∃ h, clients first.2 !! key = Some (Some h)
               ∧ athenaAPI <$> first.1.2.1 = Some (Some h)) as (h & Hh & Hconn).
  { revert Hok. unfold first. rewrite Connect_unfold. unfold Connect_cases.
    rewrite Hk.
    destruct (clients σ !! key) as [[h|]|] eqn:E;
      [| |destruct (config_LoadDefaultConfig _ _)];
      cbn [fst snd clients]; intros Hok; try done.
    - by exists h.
    - eexists. by rewrite lookup_insert_eq.
    - eexists. by rewrite lookup_insert_eq. }
  assert (Hh' : clients σ' !! key = Some (Some h))
    by by apply run_keeps_handle.
  assert (Hsecond := Connect_hit env' ctx' c' σ' h).
  rewrite Hk' in Hsecond. specialize (Hsecond Hh'). cbv zeta in Hsecond.
  unfold ev, events_of, second. rewrite Hsecond. cbn [fst snd trace clients].
  rewrite drop_app_length. cbn.
  split_and!; try done.
  exists h. eexists. split_and!; done.
Qed.

(** C9: when the client map already holds a handle under the resolved
    key, [Connect] does not fail: it returns a Connection on that handle
    and a nil error, without the failure counter, without loading a
    configuration and without constructing or storing a client. *)
Theorem Connect_cache_hit_cannot_fail env ctx c σ h :
  clients σ !! cache_key (strategy_of env (config c)) (config c)
    = Some (Some h) →
  let r := Connect env ctx c σ in
  let ev := events_of (Connect env ctx c) σ in
  r.1.2 = (Some {| athenaAPI := Some h; connector := r.1.1 |}, None)
  ∧ List.filter (is_counter failure_counter) ev = []
  ∧ List.filter is_load ev = []
  ∧ List.filter is_construct ev = []
  ∧ List.filter is_store ev = []
  ∧ clients r.2 = clients σ.
Proof.
  intros E r ev. unfold ev, events_of, r.
  rewrite (Connect_hit _ _ _ _ _ E). cbn [fst snd trace clients].
  rewrite drop_app_length. by cbn.
Qed.

(** C4: when configuration loading fails during [Connect], the session
    creation failure counter is incremented exactly once, after the
    failed load and as the last thing [Connect] does, the error returned
    is the loading error and the connection returned is nil; the client
    map is left as it was. *)
Theorem Connect_load_failure env ctx c σ opts e :
  EvLoadDefaultConfig opts (inl e) ∈ events_of (Connect env ctx c) σ →
  let r := Connect env ctx c σ in
  let ev := events_of (Connect env ctx c) σ in
  r.1.2 = (None, Some e)
  ∧ length (List.filter (is_counter failure_counter) ev) = 1
  ∧ (∃ pre, ev = pre ++ [EvLoadDefaultConfig opts (inl e);
                          EvCounterInc (Scope (tracer r.1.1))
                            failure_counter 1])
  ∧ clients r.2 = clients σ.
Proof.
  intros Hin r ev. revert Hin. unfold ev, events_of, r.
  rewrite Connect_unfold. unfold Connect_cases.
  destruct (clients σ !! _) as [[h|]|] eqn:E;
    [| |destruct (config_LoadDefaultConfig _ _) eqn:E2];
    cbn [fst snd trace clients tracer Scope]; rewrite drop_app_length;
    intros Hin; cbn in Hin;
    repeat (apply elem_of_cons in Hin as [Hin|Hin]; [try done|]);
    try by apply elem_of_nil in Hin.
  simplify_eq. cbn [app List.filter is_counter].
  rewrite bool_decide_eq_true_2 by done.
  split_and!; try done.
  by eexists [_; _; _].
Qed.

(** C10: every call of [Connect], whatever the client map holds and
    whatever the context carries, replaces the tracer of the connector by
    a new default observability object built from the Configuration, on
    which the metrics scope and the logger found in the context are then
    set; the previous tracer has no influence and the Configuration of
    the connector is unchanged. *)
Theorem Connect_overwrites_tracer env ctx c σ :
  let c' := (Connect env ctx c σ).1.1 in
  let t0 := NewDefaultObservability (config c) in
  let t1 := match ctx MetricsKey with
            | Some (VScope metrics) => SetScope t0 metrics
            | _ => t0
            end in
  let t2 := match ctx LoggerKey with
            | Some (VLogger l) => SetLogger t1 l
            | _ => t1
            end in
  config c' = config c
  ∧ tracer c' = t2
  ∧ (∀ stale, (Connect env ctx (set_tracer c stale) σ).1.1 = c')
  ∧ (ctx MetricsKey = None ∧ ctx LoggerKey = None → tracer c' = t0).
Proof.
  intros c' t0 t1 t2.
  assert (Hc : ∀ d, (Connect env ctx d σ).1.1
                    = {| config := config d;
                         tracer := installed_tracer ctx (config d) |}).
  { intros d. rewrite Connect_unfold. unfold Connect_cases.
    by repeat case_match. }
  assert (Ht : installed_tracer ctx (config c) = t2).
  { unfold installed_tracer, t2, t1, t0, assert_Scope, assert_Logger, Value.
    destruct (ctx MetricsKey) as [[]|], (ctx LoggerKey) as [[]|];
      reflexivity. }
  unfold c'. rewrite Hc. cbn [config tracer]. split_and!.
  - done.
  - exact Ht.
  - intros stale. by rewrite Hc.
  - intros [Hm Hl]. rewrite Ht. unfold t2, t1. by rewrite Hm, Hl.
Qed.

(** C5, as the code has it: in every cache-miss execution of [Connect]
    the configuration is loaded while no lock is held, after the read
    lock has been released; the client is then constructed and stored
    while the write lock is held, in the order Lock, NewFromConfig, store,
    Unlock, and every lock taken is released. When loading fails nothing
    is constructed or stored. *)
Theorem Connect_miss_lock_discipline env ctx c σ :
  let s := strategy_of env (config c) in
  let key := cache_key s (config c) in
  let opts := load_options s (config c) in
  clients σ !! key = None →
  let ev := events_of (Connect env ctx c) σ in
  Forall (eq Free) (held_at is_load Free ev)
  ∧ Forall (eq WriteHeld) (held_at is_build Free ev)
  ∧ well_bracketed Free ev = true
  ∧ match config_LoadDefaultConfig (length (trace σ) + 3) opts with
    | inr cfg =>
        ∃ tm, ev = [EvRLock; EvMapRead key None; EvRUnlock;
                    EvLoadDefaultConfig opts (inr cfg);
                    EvLock; EvNewFromConfig cfg;
                    EvMapWrite key (Some (athena_NewFromConfig cfg));
                    EvUnlock; tm]
    | inl e => List.filter is_build ev = []
    end.
Proof.
  intros s key opts E ev. unfold ev, events_of.
  rewrite Connect_unfold. unfold Connect_cases. fold s key opts. rewrite E.
  destruct (config_LoadDefaultConfig _ _) as [e|cfg];
    cbn [snd trace]; rewrite drop_app_length; cbn.
  - split_and!; try done; repeat constructor.
  - split_and!; try done; repeat constructor. by eexists.
Qed.

Lemma built_from_loaded_app t x k v :
  built_from_loaded t k v → built_from_loaded (t ++ x) k v.
Proof.
  intros (pre & post & opts & cfg & -> & ->).
  exists pre, (post ++ x), opts, cfg. split; [done|].
  by rewrite <- !app_assoc.
Qed.

(** One call keeps the invariant and removes no entry. *)
Lemma step_cache_ok σ k :
  cache_ok σ →
  cache_ok (step σ k)
  ∧ ∀ key, is_Some (clients σ !! key) → is_Some (clients (step σ k) !! key).
Proof.
  intros Hok. unfold step. rewrite Connect_unfold. unfold Connect_cases.
  cbv zeta. set (key := cache_key _ _).
  destruct (clients σ !! key) as [[h|]|] eqn:E;
    [| |destruct (config_LoadDefaultConfig _ _) as [e|cfg]];
    cbn [snd clients trace].
  - split; [|done]. intros k' v Hv. cbn [clients trace] in *.
    apply built_from_loaded_app. by apply Hok.
  - destruct (Hok _ _ E) as (? & ? & ? & ? & ? & _). done.
  - split; [|done]. intros k' v Hv. cbn [clients trace] in *.
    apply built_from_loaded_app. by apply Hok.
  - split.
    + intros k' v. cbn [clients trace app].
      rewrite lookup_insert. case_decide as Hk.
      * intros [= <-]. subst k'.
        eexists (trace σ ++ [_; _; _]), [_], _, cfg. split; [done|].
        by rewrite <- !app_assoc.
      * intros Hv. apply built_from_loaded_app. by apply Hok.
    + intros k'. rewrite lookup_insert. case_decide; eauto.
Qed.

Lemma run_cache_ok calls σ :
  cache_ok σ →
  cache_ok (run calls σ)
  ∧ ∀ key, is_Some (clients σ !! key) → is_Some (clients (run calls σ) !! key).
Proof.
  revert σ. induction calls as [|k calls IH]; intros σ Hok; [done|].
  destruct (step_cache_ok σ k Hok) as [Hok' Hdom].
  destruct (IH _ Hok') as [Hok'' Hdom'].
  split; [done|]. intros key Hkey. apply Hdom', Hdom, Hkey.
Qed.

(** C6: after any sequence of [Connect] calls that starts from the empty
    client map, every entry of the map is a non-nil client that was
    constructed from a successfully loaded configuration and stored right
    after its construction; further calls remove no entry and leave no
    nil entry. *)
Theorem clients_never_hold_nil calls :
  let σ := run calls initial in
  cache_ok σ
  ∧ (∀ k, clients σ !! k ≠ Some None)
  ∧ (∀ more k,
       is_Some (clients σ !! k) →
       is_Some (clients (run more σ) !! k)
       ∧ clients (run more σ) !! k ≠ Some None).
Proof.
  intros σ.
  assert (Hnil : ∀ τ, cache_ok τ → ∀ k, clients τ !! k ≠ Some None).
  { intros τ Hτ k Hk. by destruct (Hτ _ _ Hk) as (? & ? & ? & ? & ? & _). }
  assert (Hinit : cache_ok initial).
  { intros k v. unfold initial. cbn [clients]. by rewrite lookup_empty. }
  destruct (run_cache_ok calls initial Hinit) as [Hok _]. fold σ in Hok.
  split_and!; [done|by apply Hnil|].
  intros more k Hk. destruct (run_cache_ok more σ Hok) as [Hok' Hdom].
  split; [by apply Hdom|by apply Hnil].
Qed.

(** *** Strings *)

Lemma string_app_cons a s t : String a s +:+ t = String a (s +:+ t).
Proof. reflexivity. Qed.

Lemma string_app_length s t :
  String.length (s +:+ t) = String.length s + String.length t.
Proof.
  induction s as [|a s IH]; [done|].
  rewrite string_app_cons. cbn [String.length]. by rewrite IH.
Qed.

Lemma string_app_inj_r s1 s2 t : s1 +:+ t = s2 +:+ t → s1 = s2.
Proof.
  revert s2. induction s1 as [|a s1 IH]; intros [|b s2] Heq; [done|..].
  - apply (f_equal String.length) in Heq.
    change ("" +:+ t) with t in Heq.
    rewrite string_app_cons in Heq. cbn [String.length] in Heq.
    rewrite string_app_length in Heq. lia.
  - apply (f_equal String.length) in Heq.
    change ("" +:+ t) with t in Heq.
    rewrite string_app_cons in Heq. cbn [String.length] in Heq.
    rewrite string_app_length in Heq. lia.
  - rewrite !string_app_cons in Heq. injection Heq as -> Heq.
    f_equal. by apply IH.
Qed.

(** A region without the separator ends where the first [##] starts. *)
Lemma split_at_separator r1 r2 a1 a2 :
  has_hash r1 = false → has_hash r2 = false →
  r1 +:+ "##" +:+ a1 = r2 +:+ "##" +:+ a2 → r1 = r2 ∧ a1 = a2.
Proof.
  revert r2. induction r1 as [|x r1 IH]; intros [|y r2] H1 H2 Heq;
    rewrite ?string_app_cons in Heq; cbn [has_hash] in H1, H2.
  - cbv [String.append] in Heq. by simplify_eq.
  - cbv [String.append] in Heq. fold String.append in Heq.
    injection Heq as <- _. by rewrite bool_decide_eq_true_2 in H2.
  - cbv [String.append] in Heq. fold String.append in Heq.
    injection Heq as -> _. by rewrite bool_decide_eq_true_2 in H1.
  - injection Heq as -> Heq.
    apply orb_false_iff in H1 as [_ H1]. apply orb_false_iff in H2 as [_ H2].
    destruct (IH _ H1 H2 Heq) as [-> ->]. done.
Qed.

Lemma keys_read_Connect env ctx c σ :
  keys_read (events_of (Connect env ctx c) σ)
  = [cache_key (strategy_of env (config c)) (config c)].
Proof.
  unfold events_of. rewrite Connect_unfold. unfold Connect_cases.
  destruct (clients σ !! _) as [[h|]|];
    [| |destruct (config_LoadDefaultConfig _ _)];
    cbn [snd trace]; by rewrite drop_app_length.
Qed.

Lemma cache_key_flag_off env cfg :
  flag_enabled env = false →
  cache_key (strategy_of env cfg) cfg
  = GetRegion cfg +:+ "##" +:+ GetAccessID cfg.
Proof.
  intros Hoff. unfold strategy_of. rewrite Hoff.
  case_bool_decide as Hid; [done|].
  cbn [cache_key]. by rewrite Hid.
Qed.

(** C3, as the code has it: two Configurations that authenticate
    identically (same strategy, same loading options) give identical
    keys. The key holds only the profile under the environment-delegated
    strategy and only region and access id otherwise: there, with the
    flag on in both, the keys are equal exactly when the profiles are;
    with the flag off in both and regions free of the separator, exactly
    when regions and access ids are; and a key made with the flag on
    differs from one made with the flag off for a non-empty region free
    of the separator. Secret access key and session token never enter
    the key. *)
Theorem cache_key_by_strategy env1 env2 ctx1 ctx2 c1 c2 σ1 σ2 :
  let cfg1 := config c1 in
  let cfg2 := config c2 in
  let k1 := keys_read (events_of (Connect env1 ctx1 c1) σ1) in
  let k2 := keys_read (events_of (Connect env2 ctx2 c2) σ2) in
  (authentication env1 cfg1 = authentication env2 cfg2 → k1 = k2)
  ∧ (flag_enabled env1 = true → flag_enabled env2 = true →
     (k1 = k2 ↔ GetAWSProfile cfg1 = GetAWSProfile cfg2))
  ∧ (flag_enabled env1 = false → flag_enabled env2 = false →
     has_hash (GetRegion cfg1) = false → has_hash (GetRegion cfg2) = false →
     (k1 = k2 ↔ GetRegion cfg1 = GetRegion cfg2
                ∧ GetAccessID cfg1 = GetAccessID cfg2))
  ∧ (flag_enabled env1 = true → flag_enabled env2 = false →
     GetRegion cfg2 ≠ "" → has_hash (GetRegion cfg2) = false → k1 ≠ k2)
  ∧ (flag_enabled env1 = flag_enabled env2 →
     GetRegion cfg1 = GetRegion cfg2 →
     GetAWSProfile cfg1 = GetAWSProfile cfg2 →
     GetAccessID cfg1 = GetAccessID cfg2 → k1 = k2).
Proof.
  intros cfg1 cfg2 k1 k2. unfold k1, k2. rewrite !keys_read_Connect.
  fold cfg1 cfg2. split_and!.
  - unfold authentication. intros [= Hs Ho]. rewrite Hs in *.
    destruct (strategy_of env2 cfg2); cbn [cache_key load_options] in *.
    + repeat case_bool_decide; simplify_eq; congruence.
    + simplify_eq; congruence.
    + simplify_eq; congruence.
  - intros Hon1 Hon2. unfold strategy_of. rewrite Hon1, Hon2.
    cbn [cache_key]. split; [|by intros ->].
    intros [= Heq]. change ("" +:+ ?s) with s in Heq.
    by apply string_app_inj_r in Heq.
  - intros Hoff1 Hoff2 Hr1 Hr2. rewrite !cache_key_flag_off by done. split.
    + intros [= Heq]. by apply split_at_separator in Heq.
    + by intros [-> ->].
  - intros Hon1 Hoff2 Hne Hr2. rewrite (cache_key_flag_off env2) by done.
    unfold strategy_of. rewrite Hon1. cbn [cache_key]. intros [= Heq].
    destruct (GetRegion cfg2) as [|a r]; [done|].
    cbn in Heq, Hr2. injection Heq as <- _.
    by rewrite bool_decide_eq_true_2 in Hr2.
  - intros Hflag Hr Hp Hid. unfold strategy_of. rewrite Hflag, Hid.
    destruct (flag_enabled env2); [|case_bool_decide];
      cbn [cache_key]; congruence.
Qed.

(** C7: [CreateWGRemotely] issues one create-workgroup request that
    carries the stored name and configuration; its tags are absent (the
    nil slice) when the tag set has length zero and are exactly the tags
    of the workgroup otherwise; the error of the remote call is returned
    as it is. *)
Theorem CreateWGRemotely_request_shape (w : wg.Workgroup) svc σ :
  let tags := WGTags_Get (wg.Tags w) in
  let input := {| cwg_Configuration := wg.Config w;
                  cwg_Name := Some (wg.Name w);
                  cwg_Tags := if bool_decide (len tags = 0)
                              then None else tags |} in
  let err := athena_CreateWorkGroup (length (trace σ)) context_TODO svc input in
  wg.CreateWGRemotely w svc σ
  = (err, {| clients := clients σ;
             trace := trace σ ++
                        [EvCreateWorkGroup context_TODO svc input err] |})
  ∧ events_of (wg.CreateWGRemotely w svc) σ
    = [EvCreateWorkGroup context_TODO svc input err]
  ∧ (len tags = 0 → cwg_Tags input = None)
  ∧ (len tags ≠ 0 →
     ∃ l, l ≠ [] ∧ tags = Some l ∧ cwg_Tags input = Some l).
Proof.
  intros tags input err.
  assert (Hrun : wg.CreateWGRemotely w svc σ
    = (err, {| clients := clients σ;
               trace := trace σ ++
                          [EvCreateWorkGroup context_TODO svc input err] |})).
  { unfold wg.CreateWGRemotely, wg.CreateWorkGroup, err, input, aws_String.
    fold tags. by case_bool_decide. }
  split_and!.
  - done.
  - unfold events_of. rewrite Hrun. cbn [snd trace]. by rewrite drop_app_length.
  - intros Hlen. unfold input. cbn [cwg_Tags]. by rewrite bool_decide_eq_true_2.
  - intros Hlen. unfold input. cbn [cwg_Tags].
    rewrite bool_decide_eq_false_2 by done.
    destruct tags as [l|]; [|done]. exists l. split_and!; try done.
    by intros ->.
Qed.

(** C8: [getWG] with a nil client handle returns ErrAthenaNilAPI with a
    nil workgroup and performs no remote call; with a client it performs
    one remote get-workgroup call for the name and returns the workgroup
    of the answer with a nil error, or a nil workgroup with the error of
    the call as it is; never a workgroup together with an error. *)
Theorem getWG_nil_or_remote ctx name σ :
  wg.getWG ctx None name σ = ((None, Some ErrAthenaNilAPI), σ)
  ∧ List.filter is_remote_call (events_of (wg.getWG ctx None name) σ) = []
  ∧ (∀ svc,
       let input := {| gwg_WorkGroup := Some name |} in
       let r := athena_GetWorkGroup (length (trace σ)) ctx svc input in
       wg.getWG ctx (Some svc) name σ
       = (match r with
          | inl e => (None, Some e)
          | inr out => (gwo_WorkGroup out, None)
          end,
          {| clients := clients σ;
             trace := trace σ ++ [EvGetWorkGroup ctx svc input r] |}))
  ∧ (∀ svc, let res := (wg.getWG ctx svc name σ).1 in
            res.1 = None ∨ res.2 = None).
Proof.
  assert (Hsome : ∀ svc,
    wg.getWG ctx (Some svc) name σ
    = (match athena_GetWorkGroup (length (trace σ)) ctx svc
               {| gwg_WorkGroup := Some name |} with
       | inl e => (None, Some e)
       | inr out => (gwo_WorkGroup out, None)
       end,
       {| clients := clients σ;
          trace := trace σ ++
            [EvGetWorkGroup ctx svc {| gwg_WorkGroup := Some name |}
               (athena_GetWorkGroup (length (trace σ)) ctx svc
                  {| gwg_WorkGroup := Some name |})] |})).
  { intros svc. unfold wg.getWG, wg.GetWorkGroup, aws_String, clock, emit,
      mbind, mret, M_bind, M_ret.
    by destruct (athena_GetWorkGroup _ _ _ _). }
  split_and!.
  - done.
  - unfold events_of. cbn. by rewrite drop_all.
  - done.
  - intros [svc|]; cbn zeta.
    + rewrite Hsome. destruct (athena_GetWorkGroup _ _ _ _); cbn; auto.
    + cbn. auto.
Qed.

End Proofs.

(** ** The theorems at work in the concrete world *)

Lemma Connect_twice_hits_cache_witness :
  flag_enabled unset = false
  ∧ GetAccessID (config east) = ""
  ∧ (Connect (world := ok) unset ctx0 east initial).1.2.2 = None
  ∧ loads (events_of (Connect (world := ok) unset ctx0 east)
             (run (world := ok) [west_call] warm)) = [].
Proof.
  split_and!; [reflexivity..|].
  exact (proj1 (Connect_twice_hits_cache (world := ok)
                  unset ctx0 east initial [west_call] unset ctx0 east
                  eq_refl eq_refl eq_refl eq_refl eq_refl)).
Defined.

Lemma Connect_cache_hit_cannot_fail_witness :
  clients warm !! "us-east-1##" = Some (Some [WithRegion "us-east-1"])
  ∧ (Connect (world := ok) unset ctx0 east warm).1.2.2 = None
  ∧ List.filter is_load
      (events_of (Connect (world := ok) unset ctx0 east) warm) = [].
Proof.
  assert (Hhit : clients warm
                   !! cache_key (strategy_of unset (config east)) (config east)
                 = Some (Some [WithRegion "us-east-1"])) by reflexivity.
  pose proof (Connect_cache_hit_cannot_fail (world := ok)
                unset ctx0 east warm _ Hhit) as Hthm.
  cbv zeta in Hthm. destruct Hthm as (Hres & _ & Hload & _).
  split_and!; [exact Hhit| |exact Hload].
  by rewrite Hres.
Defined.

Lemma Connect_load_failure_witness :
  EvLoadDefaultConfig (types := sample_types)
    [WithRegion "us-east-1"] (inl "no credentials")
    ∈ events_of (Connect (world := failing) unset ctx0 east) initial
  ∧ (Connect (world := failing) unset ctx0 east initial).1.2
    = (None, Some "no credentials")
  ∧ length (List.filter (is_counter (failure_counter (world := failing)))
              (events_of (Connect (world := failing) unset ctx0 east) initial))
    = 1.
Proof.
  assert (Hin : EvLoadDefaultConfig (types := sample_types)
                  [WithRegion "us-east-1"] (inl "no credentials")
                ∈ events_of (Connect (world := failing) unset ctx0 east)
                    initial).
  { apply list_elem_of_In. vm_compute. tauto. }
  pose proof (Connect_load_failure (world := failing)
                unset ctx0 east initial _ _ Hin) as Hthm.
  cbv zeta in Hthm. destruct Hthm as (Hres & Hcount & _).
  split_and!; done.
Defined.

(** C5 as stated fails: on a cache miss from the empty map the
    configuration is loaded with no lock held, but the client is
    constructed while the write lock is held. *)
Lemma client_constructed_under_write_lock :
  clients (initial (types := sample_types)) !! "us-east-1##" = None
  ∧ held_at is_io Free
      (events_of (Connect (world := ok) unset ctx0 east) initial)
    = [Free; WriteHeld]
  ∧ held_at is_construct Free
      (events_of (Connect (world := ok) unset ctx0 east) initial)
    = [WriteHeld].
Proof. split_and!; reflexivity. Qed.

Lemma Connect_miss_lock_discipline_witness :
  clients (initial (types := sample_types)) !! "us-east-1##" = None
  ∧ Forall (eq Free)
      (held_at is_load Free
         (events_of (Connect (world := ok) unset ctx0 east) initial))
  ∧ Forall (eq WriteHeld)
      (held_at is_build Free
         (events_of (Connect (world := ok) unset ctx0 east) initial)).
Proof.
  assert (Hmiss : clients (initial (types := sample_types))
                    !! cache_key (strategy_of unset (config east))
                         (config east) = None) by reflexivity.
  pose proof (Connect_miss_lock_discipline (world := ok)
                unset ctx0 east initial Hmiss) as Hthm.
  cbv zeta in Hthm. destruct Hthm as (Hload & Hbuild & _).
  split_and!; [exact Hmiss|exact Hload|exact Hbuild].
Defined.

(** C3 as stated fails: two Configurations that differ in the secret
    access key, and so load different credentials, get the same key. *)
Lemma secret_access_key_not_in_cache_key :
  auth_fields unset (west_config "secret-1")
    ≠ auth_fields unset (west_config "secret-2")
  ∧ authentication unset (west_config "secret-1")
    ≠ authentication unset (west_config "secret-2")
  ∧ keys_read (events_of (Connect (world := ok) unset ctx0 (west "secret-1"))
                 initial)
    = keys_read (events_of (Connect (world := ok) unset ctx0 (west "secret-2"))
                   initial).
Proof. split_and!; [by intros [=]|by intros [=]|reflexivity]. Qed.

Lemma cache_key_by_strategy_witness :
  flag_enabled unset = false
  ∧ has_hash (GetRegion (west_config "secret-1")) = false
  ∧ keys_read (events_of (Connect (world := ok) unset ctx0 (west "secret-1"))
                 initial)
    ≠ keys_read (events_of (Connect (world := ok) unset ctx0 east) warm).
Proof.
  pose proof (cache_key_by_strategy (world := ok)
                unset unset ctx0 ctx0 (west "secret-1") east initial warm)
    as Hthm.
  cbv zeta in Hthm. destruct Hthm as (_ & _ & Hoff & _).
  split_and!; [reflexivity..|].
  intros Heq. by apply (Hoff eq_refl eq_refl eq_refl eq_refl) in Heq as [[=] _].
Defined.

Lemma clients_never_hold_nil_witness :
  clients (run (world := ok) [east_call; east_call] initial) !! "us-east-1##"
    = Some (Some [WithRegion "us-east-1"])
  ∧ built_from_loaded (world := ok)
      (trace (run (world := ok) [east_call; east_call] initial))
      "us-east-1##" (Some [WithRegion "us-east-1"]).
Proof.
  pose proof (clients_never_hold_nil (world := ok) [east_call; east_call])
    as Hthm.
  cbv zeta in Hthm. destruct Hthm as (Hok & _).
  split; [reflexivity|]. apply Hok. reflexivity.
Defined.

(** ** Further properties of [Connect] *)

Section ConnectProperties.

Context {types : GoTypes} {world : Collaborators}.

(** X1: in every execution of [Connect], hit, miss, nil entry or failed
    load alike, the client map is read only while the read lock is held
    and written only while the write lock is held, configurations are
    loaded and metrics recorded while no lock is held, and every lock
    taken is released before [Connect] returns. *)
Theorem Connect_lock_discipline env ctx c σ :
  let ev := events_of (Connect env ctx c) σ in
  well_bracketed Free ev = true
  ∧ Forall (eq ReadHeld) (held_at is_read Free ev)
  ∧ Forall (eq WriteHeld) (held_at is_build Free ev)
  ∧ Forall (eq Free) (held_at is_load Free ev)
  ∧ Forall (eq Free) (held_at is_metric Free ev)
  ∧ foldl lock_step Free ev = Free.
Proof.
  intros ev. unfold ev, events_of.
  rewrite Connect_unfold. unfold Connect_cases. cbv zeta.
  destruct (clients σ !! _) as [[h|]|];
    [| |destruct (config_LoadDefaultConfig _ _)];
    cbn [snd trace]; rewrite drop_app_length; cbn;
    split_and!; try done; repeat constructor.
Qed.

(** X2: [Connect] returns either a Connection with a nil error or a nil
    Connection with an error, never both and never neither. On success
    the Connection holds a non-nil handle, which is the one the client
    map holds under the resolved key after the call, and refers to the
    connector as [Connect] left it; on failure the lookup had missed and
    the map is as it was. *)
Theorem Connect_result_shape env ctx c σ :
  let r := Connect env ctx c σ in
  let key := cache_key (strategy_of env (config c)) (config c) in
  match r.1.2 with
  | (Some conn, None) =>
      ∃ h, athenaAPI conn = Some h
           ∧ connector conn = r.1.1
           ∧ clients r.2 !! key = Some (Some h)
  | (None, Some e) => clients r.2 = clients σ ∧ clients σ !! key = None
  | _ => False
  end.
Proof.
  intros r key. unfold r.
  rewrite Connect_unfold. unfold Connect_cases. cbv zeta. fold key.
  destruct (clients σ !! key) as [[h|]|] eqn:E;
    [| |destruct (config_LoadDefaultConfig _ _)];
    cbn [fst snd clients athenaAPI connector]; try done;
    eexists; split_and!; try done; by rewrite lookup_insert_eq.
Qed.

(** X3: [Connect] touches the client map at the resolved key only: every
    other key keeps its entry, no key leaves the map, and a non-nil handle
    already under the resolved key is not replaced. *)
Theorem Connect_frame env ctx c σ :
  let σ' := (Connect env ctx c σ).2 in
  let key := cache_key (strategy_of env (config c)) (config c) in
  delete key (clients σ') = delete key (clients σ)
  ∧ dom (clients σ) ⊆ dom (clients σ')
  ∧ match clients σ !! key with
    | Some (Some h) => clients σ' = clients σ
    | _ => True
    end.
Proof.
  intros σ' key. unfold σ'.
  rewrite Connect_unfold. unfold Connect_cases. cbv zeta. fold key.
  destruct (clients σ !! key) as [[h|]|] eqn:E;
    [| |destruct (config_LoadDefaultConfig _ _)];
    cbn [snd clients]; split_and!; try done;
    rewrite ?delete_insert_eq, ?dom_insert_L; try done; set_solver.
Qed.

(** X4: every call of [Connect] records exactly one metric, as the last
    thing it does: the failure counter, incremented by one, when it
    returns an error, and the connect timer when it returns a Connection.
    The metric goes to the scope carried by the context when there is
    one, and to the default scope of the Configuration otherwise; a
    logger in the context does not change the scope. *)
Theorem Connect_one_metric env ctx c σ :
  let r := Connect env ctx c σ in
  let ev := events_of (Connect env ctx c) σ in
  let sc := metric_scope ctx (config c) in
  ∃ d,
    let metric := match r.1.2.2 with
                  | Some _ => EvCounterInc sc failure_counter 1
                  | None => EvTimerRecord sc connect_timer d
                  end in
    List.filter is_metric ev = [metric] ∧ last ev = Some metric.
Proof.
  intros r ev sc. unfold r, ev, events_of.
  assert (Hsc : scope (installed_tracer ctx (config c)) = sc).
  { unfold sc, metric_scope, installed_tracer, assert_Scope, assert_Logger,
      Value.
    destruct (ctx MetricsKey) as [[]|], (ctx LoggerKey) as [[]|];
      reflexivity. }
  rewrite Connect_unfold. unfold Connect_cases. cbv zeta.
  cbn [tracer]. rewrite Hsc.
  destruct (clients σ !! _) as [[h|]|];
    [| |destruct (config_LoadDefaultConfig _ _)];
    cbn [fst snd trace]; rewrite drop_app_length; cbn;
    first [by eexists|by exists 0%Z].
Qed.

(** X5: a nil handle stored under the resolved key counts as found for
    the lookup and as missing for the nil test that follows it: [Connect]
    then loads no configuration, constructs a client from the zero value
    of [aws.Config], stores it under the key and returns it with a nil
    error. *)
Theorem Connect_nil_entry env ctx c σ :
  let key := cache_key (strategy_of env (config c)) (config c) in
  clients σ !! key = Some None →
  let r := Connect env ctx c σ in
  let ev := events_of (Connect env ctx c) σ in
  let built := athena_NewFromConfig aws_Config_zero in
  loads ev = []
  ∧ List.filter is_build ev
    = [EvNewFromConfig aws_Config_zero; EvMapWrite key (Some built)]
  ∧ clients r.2 = <[key := Some built]> (clients σ)
  ∧ athenaAPI <$> r.1.2.1 = Some (Some built)
  ∧ r.1.2.2 = None.
Proof.
  intros key E r ev built. unfold r, ev, events_of.
  rewrite Connect_unfold. unfold Connect_cases. cbv zeta. fold key.
  rewrite E. cbn [fst snd trace clients]. rewrite drop_app_length.
  by cbn.
Qed.

Lemma step_written_once σ call : written_once σ → written_once (step σ call).
Proof.
  intros [Hnil Hw]. unfold step. rewrite Connect_unfold. unfold Connect_cases.
  cbv zeta. set (key := cache_key _ _).
  destruct (clients σ !! key) as [[h|]|] eqn:E;
    [|by destruct (Hnil key)|destruct (config_LoadDefaultConfig _ _)];
    cbn [snd]; split; cbn [clients trace]; try done.
  - intros k. unfold writes_to. rewrite omap_app. cbn.
    rewrite app_nil_r. apply Hw.
  - intros k. unfold writes_to. rewrite omap_app. cbn.
    rewrite app_nil_r. apply Hw.
  - intros k. rewrite lookup_insert. case_decide; [done|apply Hnil].
  - intros k. unfold writes_to. rewrite omap_app. cbn.
    fold (writes_to k (trace σ)). rewrite Hw, lookup_insert.
    case_bool_decide as Hk; case_decide; try done.
    + subst k. by rewrite E.
    + by rewrite app_nil_r.
Qed.

(** X6: in any sequence of [Connect] calls that starts from the empty
    client map, each key is stored at most once: a client is constructed
    for a key only the first time the key is needed, and the entry of the
    map is that client. *)
Theorem clients_written_once calls k :
  let σ := run calls initial in
  writes_to k (trace σ)
  = match clients σ !! k with Some v => [v] | None => [] end.
Proof.
  intros σ.
  assert (Hrun : ∀ l τ, written_once τ → written_once (run l τ)).
  { induction l as [|call l IH]; intros τ Hτ; [done|].
    apply IH. by apply step_written_once. }
  assert (Hinit : written_once initial).
  { split; intros k'; unfold initial; cbn [clients trace];
      by rewrite lookup_empty. }
  apply (Hrun calls initial Hinit).
Qed.

(** The handle of a successful call is in the map under its key. *)
Lemma Connect_success_handle env ctx c σ :
  (Connect env ctx c σ).1.2.2 = None →
  ∃ h, clients (Connect env ctx c σ).2
         !! cache_key (strategy_of env (config c)) (config c)
       = Some (Some h)
       ∧ athenaAPI <$> (Connect env ctx c σ).1.2.1 = Some (Some h).
Proof.
  rewrite Connect_unfold. unfold Connect_cases. cbv zeta.
  set (key := cache_key _ _).
  destruct (clients σ !! key) as [[h|]|] eqn:E;
    [| |destruct (config_LoadDefaultConfig _ _)];
    cbn [fst snd clients]; intros Hok; try done;
    eexists; by rewrite ?lookup_insert_eq.
Qed.

(** X7: the client map is shared by key alone. Once a call of [Connect]
    has succeeded, any later call that resolves to the same key, under
    any of the three strategies and whatever else differs in its
    Configuration (the secret access key, the session token), returns
    the handle of the earlier call: it loads no configuration and
    constructs and stores nothing. *)
Theorem Connect_same_key_shares_handle env ctx c σ between env' ctx' c' :
  (Connect env ctx c σ).1.2.2 = None →
  cache_key (strategy_of env' (config c')) (config c')
    = cache_key (strategy_of env (config c)) (config c) →
  let first := Connect env ctx c σ in
  let σ' := run between first.2 in
  let second := Connect env' ctx' c' σ' in
  let ev := events_of (Connect env' ctx' c') σ' in
  loads ev = []
  ∧ List.filter is_build ev = []
  ∧ second.1.2.2 = None
  ∧ is_Some second.1.2.1
  ∧ athenaAPI <$> second.1.2.1 = athenaAPI <$> first.1.2.1
  ∧ clients second.2 = clients σ'.
Proof.
  intros Hok Hkey first σ' second ev.
  destruct (Connect_success_handle _ _ _ _ Hok) as (h & Hh & Hconn).
  fold first in Hh, Hconn. rewrite <- Hkey in Hh.
  assert (Hh' : clients σ' !! cache_key (strategy_of env' (config c'))
                               (config c') = Some (Some h))
    by by apply run_keeps_handle.
  unfold ev, events_of, second.
  rewrite (Connect_hit _ _ _ _ _ Hh'). cbn [fst snd trace clients].
  rewrite drop_app_length, Hconn. by cbn.
Qed.

(** X8: a failure is not remembered. When [Connect] returns an error the
    client map is as it was, so an immediate retry misses again and asks
    the loader again with the same options; the retry succeeds or fails
    with what the loader answers then. *)
Theorem Connect_failure_not_cached env ctx c σ e ctx' :
  (Connect env ctx c σ).1.2.2 = Some e →
  let σ1 := (Connect env ctx c σ).2 in
  let s := strategy_of env (config c) in
  let opts := load_options s (config c) in
  let retry := Connect env ctx' c σ1 in
  clients σ1 = clients σ
  ∧ clients σ1 !! cache_key s (config c) = None
  ∧ loads (events_of (Connect env ctx' c) σ1) = [opts]
  ∧ retry.1.2.2
    = match config_LoadDefaultConfig (length (trace σ) + 8) opts with
      | inl e' => Some e'
      | inr _ => None
      end.
Proof.
  intros Herr σ1 s opts retry.
  assert (Hσ1 : clients σ1 = clients σ
                ∧ clients σ !! cache_key s (config c) = None
                ∧ length (trace σ1) = length (trace σ) + 5).
  { revert Herr. unfold σ1. rewrite Connect_unfold. unfold Connect_cases.
    cbv zeta. fold s.
    destruct (clients σ !! cache_key s (config c)) as [[h|]|];
      [| |destruct (config_LoadDefaultConfig _ _)];
      cbn [fst snd clients trace]; intros Herr; try done.
    split_and!; try done. rewrite length_app. cbn. lia. }
  destruct Hσ1 as (Hcl & Hmiss & Hlen).
  split_and!; [done|by rewrite Hcl|..];
    unfold retry, events_of; rewrite Connect_unfold; unfold Connect_cases;
    cbv zeta; fold s opts; rewrite Hcl, Hmiss;
    replace (length (trace σ1) + 3) with (length (trace σ) + 8) by lia;
    destruct (config_LoadDefaultConfig _ _);
    cbn [fst snd trace]; rewrite ?drop_app_length; by cbn.
Qed.

(** X9: the two constructors of a Workgroup differ on nil arguments only.
    [NewDefaultWG] replaces a nil configuration by the default one and nil
    tags by a new tag set, so the request [CreateWGRemotely] issues for
    its workgroup carries the given name, the given configuration or the
    default one, and the tags of the given tag set or of the new one;
    [NewWG] keeps nil as nil, and the request then carries a nil
    configuration. With a configuration and tags both non-nil the two
    constructors build the same Workgroup. *)
Theorem NewDefaultWG_request name config tags svc σ :
  let config' := match config with Some _ => config | None => GetDefaultWGConfig end in
  let tags' := match tags with Some _ => tags | None => NewWGTags end in
  let sent := if bool_decide (len (WGTags_Get tags') = 0)
              then None else WGTags_Get tags' in
  wg.NewDefaultWG name config tags = wg.NewWG name config' tags'
  ∧ (∃ err,
       events_of (wg.CreateWGRemotely (wg.NewDefaultWG name config tags) svc) σ
       = [EvCreateWorkGroup context_TODO svc
            {| cwg_Configuration := config';
               cwg_Name := Some name;
               cwg_Tags := sent |} err])
  ∧ (∃ err tg,
       events_of (wg.CreateWGRemotely (wg.NewWG name None tags) svc) σ
       = [EvCreateWorkGroup context_TODO svc
            {| cwg_Configuration := None;
               cwg_Name := Some name;
               cwg_Tags := tg |} err]).
Proof.
  intros config' tags' sent.
  assert (Heq : wg.NewDefaultWG name config tags = wg.NewWG name config' tags').
  { unfold wg.NewDefaultWG, wg.NewWG, config', tags'.
    by destruct config, tags. }
  split_and!; [done|rewrite Heq|];
    unfold events_of, wg.CreateWGRemotely, wg.CreateWorkGroup, wg.NewWG,
      aws_String, clock, emit, mbind, mret, M_bind, M_ret, sent;
    cbn [wg.Name wg.Config wg.Tags];
    case_bool_decide; cbn [snd trace]; rewrite drop_app_length;
    by repeat eexists.
Qed.

End ConnectProperties.

(** *** In the concrete world *)

Lemma Connect_nil_entry_witness :
  clients nil_entry !! "us-east-1##" = Some None
  ∧ loads (events_of (Connect (world := ok) unset ctx0 east) nil_entry) = []
  ∧ athenaAPI <$> (Connect (world := ok) unset ctx0 east nil_entry).1.2.1
    = Some (Some []).
Proof.
  assert (Hnil : clients nil_entry
                   !! cache_key (strategy_of unset (config east)) (config east)
                 = Some None) by reflexivity.
  pose proof (Connect_nil_entry (world := ok) unset ctx0 east nil_entry Hnil)
    as Hthm.
  cbv zeta in Hthm. destruct Hthm as (Hloads & _ & _ & Hconn & _).
  split_and!; [exact Hnil|exact Hloads|exact Hconn].
Defined.

Lemma Connect_same_key_shares_handle_witness :
  (Connect (world := ok) unset ctx0 (west "secret-1") initial).1.2.2 = None
  ∧ config (west "secret-2") ≠ config (west "secret-1")
  ∧ loads (events_of (Connect (world := ok) unset ctx0 (west "secret-2"))
             (run (world := ok) [east_call]
                (Connect (world := ok) unset ctx0 (west "secret-1")
                   initial).2)) = [].
Proof.
  split_and!; [reflexivity|by intros [=]|].
  exact (proj1 (Connect_same_key_shares_handle (world := ok)
                  unset ctx0 (west "secret-1") initial [east_call]
                  unset ctx0 (west "secret-2") eq_refl eq_refl)).
Defined.

Lemma Connect_failure_not_cached_witness :
  (Connect (world := flaky) unset ctx0 east initial).1.2.2
    = Some "no credentials"
  ∧ (Connect (world := flaky) unset ctx0 east
       (Connect (world := flaky) unset ctx0 east initial).2).1.2.2 = None.
Proof.
  pose proof (Connect_failure_not_cached (world := flaky)
                unset ctx0 east initial "no credentials" ctx0 eq_refl)
    as Hthm.
  cbv zeta in Hthm. destruct Hthm as (_ & _ & _ & Hretry).
  split; [reflexivity|]. rewrite Hretry. reflexivity.
Defined.

(** ** Goroutines *)

Section GoroutineProperties.

Context {types : GoTypes} {world : Collaborators}.

Lemma resolve_strategy env cfg :
  resolve env cfg
  = (cache_key (strategy_of env cfg) cfg,
     load_options (strategy_of env cfg) cfg).
Proof.
  unfold resolve, strategy_of, flag_enabled.
  destruct (strconv.ParseBool _).1; [done|]. by case_bool_decide.
Qed.

Ltac run_steps :=
  cbn [replicate foldl exec sys_step boot go goroutines shared lookup
       list_lookup go_step g_pc g_env g_ctx g_c at_pc insert list_insert
       connectors set_connector set_client config tracer set_tracer now_of
       globals clientMutext writer readers push set_mutex clients trace
       assert_Scope assert_Logger Value orb pred Scope default from_option
       id fst snd athenaAPI connector].

Ltac step_in H :=
  cbn [sys_step boot go goroutines shared lookup
       list_lookup go_step g_pc g_env g_ctx g_c at_pc insert list_insert
       connectors set_connector set_client config tracer set_tracer now_of
       globals clientMutext writer readers push set_mutex clients trace
       assert_Scope assert_Logger orb pred Scope default from_option
       id fst snd athenaAPI connector] in H.

Lemma exec_app l1 l2 sys : exec (l1 ++ l2) sys = exec l2 (exec l1 sys).
Proof. apply foldl_app. Qed.

Lemma exec_cons i l sys : exec (i :: l) sys = exec l (sys_step sys i).
Proof. reflexivity. Qed.

(** The first four statements install the tracer and fix the key. *)
Lemma alone_prologue env ctx c σ m :
  exec (replicate 4 0)
    {| shared := {| globals := σ; clientMutext := m; connectors := [c] |};
       goroutines := [go env ctx 0] |}
  = {| shared :=
         {| globals := σ; clientMutext := m;
            connectors := [{| config := config c;
                              tracer := installed_tracer ctx (config c) |}] |};
       goroutines :=
         [at_pc (go env ctx 0)
            (PcRLock (time_Now (length (trace σ)))
               (cache_key (strategy_of env (config c)) (config c))
               (load_options (strategy_of env (config c)) (config c)))] |}.
Proof.
  destruct c as [cfg stale]. unfold installed_tracer, Value. run_steps.
  unfold Value.
  destruct (ctx MetricsKey) as [[metrics|?|]|] eqn:Em; run_steps;
    unfold Value;
    destruct (ctx LoggerKey) as [[?|lg|]|] eqn:El; run_steps;
    by rewrite resolve_strategy.
Qed.

(** X10: a goroutine that executes [Connect] statement by statement with
    no other goroutine in its way ends within fourteen steps, and ends
    with what [Connect] gives as a whole: the same result, the same client
    map and trace, the same connector, and the mutex free again. *)
Theorem alone_is_Connect env ctx c σ :
  let sys := exec (replicate 14 0) (boot σ [c] [go env ctx 0]) in
  let r := Connect env ctx c σ in
  goroutines sys = [at_pc (go env ctx 0) (PcReturned r.1.2)]
  ∧ globals (shared sys) = r.2
  ∧ connectors (shared sys) = [r.1.1]
  ∧ clientMutext (shared sys) = {| readers := 0; writer := false |}.
Proof.
  intros sys r. unfold sys, r. rewrite Connect_unfold.
  change (replicate 14 0) with (replicate 4 0 ++ replicate 10 0).
  rewrite exec_app. unfold boot. rewrite alone_prologue.
  unfold Connect_cases. cbv zeta.
  set (key := cache_key _ _). set (opts := load_options _ _).
  set (c' := {| config := config c; tracer := _ |}).
  destruct σ as [cl t0]. cbn [clients trace].
  assert (Hlen : ∀ a b c : Event,
            length (((t0 ++ [a]) ++ [b]) ++ [c]) = length t0 + 3).
  { intros. rewrite !length_app. cbn. lia. }
  remember (exec (replicate 10 0) _) as fin eqn:Hfin.
  cbn [replicate] in Hfin. unfold go, at_pc in Hfin.
  cbn [g_env g_ctx g_c] in Hfin.
  destruct (cl !! key) as [[h|]|] eqn:E;
    [| |destruct (config_LoadDefaultConfig (length t0 + 3) opts) eqn:E2].
  all: repeat (rewrite exec_cons in Hfin;
               repeat (progress (step_in Hfin;
                                 rewrite ?E, ?Hlen, ?E2 in Hfin;
                                 rewrite ?bool_decide_eq_true_2 in Hfin
                                   by eauto;
                                 rewrite ?bool_decide_eq_false_2 in Hfin
                                   by first [by intros [? ?]|by intros Hne]));
               unfold push, set_mutex, set_client, now_of, at_pc in Hfin;
               step_in Hfin).
  all: subst fin; cbn [exec foldl goroutines shared globals connectors
                       clientMutext fst snd Scope];
    unfold go, at_pc; cbn [g_env g_ctx g_c];
    rewrite ?length_app; cbn [length];
    rewrite <- ?app_assoc; cbn [app];
    rewrite <- ?Nat.add_assoc; cbn [Nat.add];
    done.
Qed.

(** *** Counting goroutines *)

Lemma count_insert (P : Goroutine → bool) gs i g g' :
  gs !! i = Some g →
  count P (<[i := g']> gs) + (if P g then 1 else 0)
  = count P gs + (if P g' then 1 else 0).
Proof.
  unfold count. revert i. induction gs as [|x gs IH]; intros [|i] Hi;
    simplify_eq/=.
  - destruct (P g), (P g'); cbn; lia.
  - specialize (IH i Hi). destruct (P x); cbn; lia.
Qed.

Lemma count_pos (P : Goroutine → bool) gs i g :
  gs !! i = Some g → P g = true → 0 < count P gs.
Proof.
  intros Hi HP. unfold count. revert i Hi. induction gs as [|x gs IH]; intros [|i] Hi;
    simplify_eq/=.
  - rewrite HP. cbn. lia.
  - specialize (IH i Hi). destruct (P x); cbn; lia.
Qed.

Lemma count_pos_inv (P : Goroutine → bool) gs :
  0 < count P gs → ∃ i g, gs !! i = Some g ∧ P g = true.
Proof.
  unfold count. induction gs as [|x gs IH]; cbn; [lia|].
  destruct (P x) eqn:Hx.
  - intros _. by exists 0, x.
  - intros Hpos. destruct (IH Hpos) as (i & g & Hi & Hg). by exists (S i), g.
Qed.

Lemma count_two (P : Goroutine → bool) gs i j gi gj :
  i ≠ j → gs !! i = Some gi → gs !! j = Some gj →
  P gi = true → P gj = true → (2 ≤ count P gs)%nat.
Proof.
  revert i j. induction gs as [|x gs IH]; intros [|i] [|j] Hne Hi Hj Pi Pj;
    simplify_eq/=.
  - pose proof (count_pos P gs j gj Hj Pj). unfold count in *. cbn.
    match goal with H : P ?y = true |- context [P ?y] => rewrite H end.
    cbn. lia.
  - pose proof (count_pos P gs i gi Hi Pi). unfold count in *. cbn.
    match goal with H : P ?y = true |- context [P ?y] => rewrite H end.
    cbn. lia.
  - assert (i ≠ j) by congruence.
    pose proof (IH i j ltac:(done) Hi Hj Pi Pj). unfold count in *. cbn.
    destruct (P x); cbn; lia.
Qed.

(** *** The mutex counts the critical sections *)

Lemma sys_step_mutex_ok sys i : mutex_ok sys → mutex_ok (sys_step sys i).
Proof.
  intros (Hr & Hw & Hrw). unfold sys_step.
  destruct (goroutines sys !! i) as [g|] eqn:Hi; [|done].
  destruct (go_step g (shared sys)) as [[pc s]|] eqn:Hstep; [|done].
  pose proof (count_insert in_read _ i g (at_pc g pc) Hi) as Cr.
  pose proof (count_insert in_write _ i g (at_pc g pc) Hi) as Cw.
  unfold mutex_ok. cbn [shared goroutines].
  destruct sys as [[σ [rd wr] conns] gs].
  destruct g as [env ctx c pc0].
  unfold go_step, in_read, in_write, at_pc in *.
  cbn [shared goroutines clientMutext readers writer g_pc g_c g_ctx g_env]
    in *.
  destruct pc0; repeat case_match; simplify_eq;
    unfold push, set_mutex, set_client, set_connector in *;
    cbn [clientMutext readers writer orb] in *.
  all: repeat match goal with
             | Hb : bool_decide _ = false |- _ =>
                 apply bool_decide_eq_false in Hb
             end.
  all: try (destruct wr); split_and!; (done || lia).
Qed.

Lemma exec_mutex_ok sched sys : mutex_ok sys → mutex_ok (exec sched sys).
Proof.
  revert sys. induction sched as [|i sched IH]; intros sys Hok; [done|].
  apply IH. by apply sys_step_mutex_ok.
Qed.

Lemma count_start (P : Goroutine → bool) gs :
  (∀ g, is_start g = true → P g = false) →
  forallb is_start gs = true → count P gs = 0.
Proof.
  intros HP. unfold count. induction gs as [|g gs IH]; [done|].
  cbn. intros [Hg Hgs]%andb_true_iff. rewrite (HP g Hg). by apply IH.
Qed.

Lemma boot_mutex_ok σ conns gs :
  forallb is_start gs = true → mutex_ok (boot σ conns gs).
Proof.
  intros Hgs. unfold mutex_ok, boot.
  cbn [clientMutext shared readers writer goroutines].
  rewrite !count_start; try done;
    intros [? ? ? []]; by unfold is_start, in_read, in_write.
Qed.

(** X11: whatever the schedule, goroutines that run [Connect] at the same
    time never race on the client map: while one of them is between
    [Lock] and [Unlock], where the map is written, the write lock is
    held, no read lock is, and no other goroutine is in that section or
    between [RLock] and [RUnlock], where the map is read; and while one
    is in the read section a read lock is held and the write lock is
    not. *)
Theorem map_accesses_exclusive σ conns gs sched i gi :
  forallb is_start gs = true →
  let sys := exec sched (boot σ conns gs) in
  let m := clientMutext (shared sys) in
  goroutines sys !! i = Some gi →
  (in_write gi = true →
   writer m = true ∧ readers m = 0
   ∧ ∀ j gj, j ≠ i → goroutines sys !! j = Some gj →
             in_read gj = false ∧ in_write gj = false)
  ∧ (in_read gi = true → writer m = false ∧ 0 < readers m).
Proof.
  intros Hgs sys m Hi.
  destruct (exec_mutex_ok sched _ (boot_mutex_ok σ conns gs Hgs))
    as (Hr & Hw & Hrw). fold sys in Hr, Hw, Hrw. fold m in Hr, Hw, Hrw.
  split.
  - intros Hwi. pose proof (count_pos in_write _ _ _ Hi Hwi) as Hpos.
    destruct (writer m) eqn:Hm; [|lia]. split_and!; [done|by apply Hrw|].
    intros j gj Hne Hj. split.
    + destruct (in_read gj) eqn:Hrj; [|done].
      pose proof (count_pos in_read _ _ _ Hj Hrj). specialize (Hrw eq_refl).
      lia.
    + destruct (in_write gj) eqn:Hwj; [|done].
      pose proof (count_two in_write _ _ _ _ _ Hne Hj Hi Hwj Hwi). lia.
  - intros Hri. pose proof (count_pos in_read _ _ _ Hi Hri) as Hpos.
    split; [|lia]. destruct (writer m); [|done].
    specialize (Hrw eq_refl). lia.
Qed.

(** *** No nil handle *)

Lemma sys_step_handles_ok sys i : handles_ok sys → handles_ok (sys_step sys i).
Proof.
  intros (Hmap & Hgs). unfold sys_step.
  destruct (goroutines sys !! i) as [g|] eqn:Hi; [|done].
  destruct (go_step g (shared sys)) as [[pc s]|] eqn:Hstep; [|done].
  pose proof (Hgs i g Hi) as Hg.
  assert (Hpc : handle_of pc ≠ Some None
                ∧ ∀ k, clients (globals s) !! k ≠ Some None).
  { destruct sys as [[σ m conns] gs]. destruct g as [env ctx c pc0].
    unfold go_step in Hstep.
    cbn [shared goroutines g_pc g_c g_ctx g_env globals] in *.
    destruct pc0; repeat case_match; simplify_eq;
      unfold push, set_mutex, set_client, set_connector;
      cbn [handle_of globals clients athenaAPI] in *;
      split; try done.
    intros k. rewrite lookup_insert. case_decide; [congruence|apply Hmap]. }
  destruct Hpc as [Hpc Hmap']. split; cbn [shared goroutines]; [done|].
  intros j gj Hj.
  apply list_lookup_insert_Some in Hj as [(_ & Hgj & _)|(_ & Hj)].
  - by subst gj.
  - by apply (Hgs j).
Qed.

(** X12: whatever the schedule, goroutines that run [Connect] at the same
    time on a client map without nil entry (the empty map of a starting
    process, for one) never store a nil handle and never return one:
    every entry of the map stays non-nil, and a goroutine that has
    returned a Connection returned it with a non-nil handle. *)
Theorem no_nil_handle_ever σ conns gs sched :
  forallb is_start gs = true →
  (∀ k, clients σ !! k ≠ Some None) →
  let sys := exec sched (boot σ conns gs) in
  (∀ k, clients (globals (shared sys)) !! k ≠ Some None)
  ∧ ∀ i g conn err,
      goroutines sys !! i = Some g →
      g_pc g = PcReturned (Some conn, err) →
      athenaAPI conn ≠ None.
Proof.
  intros Hgs Hσ sys.
  assert (Hboot : handles_ok (boot σ conns gs)).
  { split; [done|]. cbn [boot goroutines]. intros i g Hi.
    apply forallb_forall with (x := g) in Hgs;
      [|by eapply list_elem_of_In, list_elem_of_lookup_2].
    destruct g as [? ? ? []]; by unfold is_start in Hgs. }
  assert (Hexec : ∀ l s, handles_ok s → handles_ok (exec l s)).
  { induction l as [|j l IH]; intros s Hs; [done|].
    apply IH. by apply sys_step_handles_ok. }
  destruct (Hexec sched _ Hboot) as [Hmap Hhandles]. fold sys in Hmap, Hhandles.
  split; [done|]. intros i g conn err Hi Hpc.
  specialize (Hhandles i g Hi). rewrite Hpc in Hhandles. cbn in Hhandles.
  congruence.
Qed.

(** *** Progress *)

Lemma go_step_decreases g s pc s' :
  go_step g s = Some (pc, s') → steps_left pc < steps_left (g_pc g).
Proof.
  destruct g as [env ctx c pc0]. unfold go_step. cbn [g_pc g_c g_ctx g_env].
  destruct pc0; repeat case_match; intros; simplify_eq; cbn; lia.
Qed.

Lemma steps_left_finished g : steps_left (g_pc g) = 0 ↔ finished g = true.
Proof. destruct g as [? ? ? []]; cbn; split; (done || lia). Qed.

(** Outside [RLock] and [Lock] a goroutine that has not finished can
    step; inside a critical section it always can. *)
Lemma go_step_enabled g s :
  finished g = false →
  match g_pc g with
  | PcRLock _ _ _ => writer (clientMutext s) = false
  | PcLock _ _ _ =>
      writer (clientMutext s) = false ∧ readers (clientMutext s) = 0
  | _ => True
  end →
  is_Some (go_step g s).
Proof.
  destruct g as [env ctx c pc0]. unfold go_step, finished.
  cbn [g_pc g_c g_ctx g_env].
  destruct pc0; intros Hfin Hen; try done; repeat case_match; eauto.
  - congruence.
  - destruct Hen as [Hw Hr]. rewrite Hw, Hr in *.
    by match goal with Hb : false || bool_decide _ = true |- _ =>
         apply bool_decide_eq_true in Hb
       end.
Qed.

Lemma mutex_ok_enabled sys i g :
  mutex_ok sys → goroutines sys !! i = Some g → finished g = false →
  ∃ j gj, goroutines sys !! j = Some gj ∧ is_Some (go_step gj (shared sys)).
Proof.
  intros (Hr & Hw & Hrw) Hi Hfin.
  destruct (writer (clientMutext (shared sys))) eqn:Hwr.
  - destruct (count_pos_inv in_write (goroutines sys)) as (j & gj & Hj & Hgj);
      [lia|].
    exists j, gj. split; [done|]. apply go_step_enabled.
    + destruct gj as [? ? ? []]; by unfold in_write, finished in *.
    + destruct gj as [? ? ? []]; by unfold in_write in *.
  - destruct (decide (readers (clientMutext (shared sys)) = 0)) as [Hrd|Hrd].
    + exists i, g. split; [done|]. apply go_step_enabled; [done|].
      by destruct (g_pc g).
    + destruct (count_pos_inv in_read (goroutines sys)) as (j & gj & Hj & Hgj);
        [lia|].
      exists j, gj. split; [done|]. apply go_step_enabled.
      * destruct gj as [? ? ? []]; by unfold in_read, finished in *.
      * destruct gj as [? ? ? []]; by unfold in_read in *.
Qed.

Lemma sum_insert (f : Goroutine → nat) gs i g g' :
  gs !! i = Some g →
  sum_list (f <$> <[i := g']> gs) + f g = sum_list (f <$> gs) + f g'.
Proof.
  revert i. induction gs as [|x gs IH]; intros [|i] Hi; simplify_eq/=.
  - lia.
  - specialize (IH i Hi). lia.
Qed.

Lemma sum_zero_finished gs :
  sum_list ((λ g, steps_left (g_pc g)) <$> gs) = 0 →
  forallb finished gs = true.
Proof.
  induction gs as [|x gs IH]; [done|]. cbn. intros Hsum.
  apply andb_true_iff. split.
  - apply steps_left_finished. lia.
  - apply IH. lia.
Qed.

Lemma forallb_finished_false gs :
  forallb finished gs = false →
  ∃ i g, gs !! i = Some g ∧ finished g = false.
Proof.
  induction gs as [|x gs IH]; [done|]. cbn.
  destruct (finished x) eqn:Hx.
  - intros Hgs. destruct (IH Hgs) as (i & g & Hi & Hg). by exists (S i), g.
  - intros _. by exists 0, x.
Qed.

(** From a state in which the mutex counts right, some schedule brings
    every goroutine to its end. *)
Lemma mutex_ok_completes n sys :
  (sum_list ((λ g, steps_left (g_pc g)) <$> goroutines sys) ≤ n)%nat →
  mutex_ok sys →
  ∃ sched, forallb finished (goroutines (exec sched sys)) = true.
Proof.
  revert sys. induction n as [|n IH]; intros sys Hn Hok.
  - exists []. apply sum_zero_finished. cbn [exec foldl]. lia.
  - destruct (forallb finished (goroutines sys)) eqn:Hall.
    + by exists [].
    + destruct (forallb_finished_false _ Hall) as (i & g & Hi & Hg).
      destruct (mutex_ok_enabled sys i g Hok Hi Hg)
        as (j & gj & Hj & [[pc s'] Hstep]).
      pose proof (go_step_decreases _ _ _ _ Hstep) as Hdec.
      pose proof (sum_insert (λ g, steps_left (g_pc g)) _ j gj (at_pc gj pc) Hj)
        as Hsum.
      cbn [at_pc g_pc] in Hsum.
      destruct (IH (sys_step sys j)) as [sched Hsched].
      * unfold sys_step. rewrite Hj, Hstep. cbn [goroutines]. lia.
      * by apply sys_step_mutex_ok.
      * exists (j :: sched). by rewrite exec_cons.
Qed.

(** X13: calls of [Connect] that run at the same time cannot deadlock on
    [clientMutext]: after any schedule, if some goroutine has not
    finished then some goroutine can take its next step, every step
    brings the goroutine that takes it closer to its end, which is at
    most fourteen statements away, and some continuation of the schedule
    brings every goroutine to its end. *)
Theorem Connect_never_deadlocks σ conns gs sched :
  forallb is_start gs = true →
  let sys := exec sched (boot σ conns gs) in
  (forallb finished (goroutines sys) = false →
   ∃ j gj, goroutines sys !! j = Some gj ∧ is_Some (go_step gj (shared sys)))
  ∧ (∀ j gj pc s',
       goroutines sys !! j = Some gj →
       go_step gj (shared sys) = Some (pc, s') →
       (steps_left pc < steps_left (g_pc gj) ≤ 14)%nat)
  ∧ ∃ more, forallb finished (goroutines (exec more sys)) = true.
Proof.
  intros Hgs sys.
  pose proof (exec_mutex_ok sched _ (boot_mutex_ok σ conns gs Hgs)) as Hok.
  fold sys in Hok. split_and!.
  - intros Hall. destruct (forallb_finished_false _ Hall) as (i & g & Hi & Hg).
    by apply (mutex_ok_enabled sys i g).
  - intros j gj pc s' Hj Hstep. split.
    + by eapply go_step_decreases.
    + destruct gj as [? ? ? []]; cbn; lia.
  - by eapply mutex_ok_completes.
Qed.

(** *** Interleavings *)






End GoroutineProperties.

(** *** In the concrete world *)

Lemma map_accesses_exclusive_witness :
  forallb is_start two_calls = true
  ∧ in_write (types := sample_types) <$> goroutines
      (exec (world := ok) first_writes (boot initial [east] two_calls)) !! 0
    = Some true
  ∧ writer (clientMutext (shared
      (exec (world := ok) first_writes (boot initial [east] two_calls))))
    = true.
Proof.
  pose proof (map_accesses_exclusive (world := ok) initial [east] two_calls
                first_writes 0 _ eq_refl eq_refl) as Hthm.
  cbv zeta in Hthm. destruct Hthm as [Hwrite _].
  split_and!; [reflexivity..|]. by apply Hwrite.
Defined.

Lemma no_nil_handle_ever_witness :
  forallb is_start two_calls = true
  ∧ clients (globals (shared
      (exec (world := ok) both_miss (boot initial [east] two_calls))))
      !! "us-east-1##" ≠ Some None.
Proof.
  split; [reflexivity|].
  apply (no_nil_handle_ever (world := ok) initial [east] two_calls both_miss
           eq_refl).
  intros k. unfold initial. cbn [clients]. by rewrite lookup_empty.
Defined.

Lemma Connect_never_deadlocks_witness :
  forallb is_start two_calls = true
  ∧ ∃ more,
      forallb finished
        (goroutines
           (exec (world := ok) more
              (exec (world := ok) first_writes
                 (boot initial [east] two_calls)))) = true.
Proof.
  split; [reflexivity|].
  apply (Connect_never_deadlocks (world := ok) initial [east] two_calls
           first_writes eq_refl).
Defined.


